(** * ExtHostInteractiveSession: a shallow embedding

    Model of [src/vs/workbench/api/common/extHostInteractiveSession.ts]:
    the provider registry, the session store, the two handle counters and
    the boundary operations of the extension host side of the interactive
    session bridge.

    Conventions of the embedding.
    - A JavaScript [number] used as a handle or an id is a [Z]; the two
      counters are unbounded integers.
    - The two [Map]s are [gmap Z _].
    - [T | undefined | null] is [option T]; every interface that is an
      object is a record, so a present value is always truthy.
    - An [async] method is a computation in the monad [M]: it threads the
      host state and settles either with a value ([Return]) or with a
      thrown value ([Throw]).  What is thrown is an [Error] object, with
      its [message].  An awaited provider capability is a function whose
      result is such a completion; a method runs to its end before the
      next call starts.
    - The outbound calls on [_proxy] and on [logService] are recorded, in
      order, in the state.  The capabilities of a provider that were
      called are recorded in the ghost field [invoked].
    - A leading [$] of a method name is dropped. *)

From stdpp Require Import base gmap strings list.
From Stdlib Require Import ZArith Lia Ascii.

Local Open Scope Z_scope.

(** ** JavaScript values *)

(** Opaque payloads ([any]: initial state, request context, saved state) and
    the property values of plain objects. *)
Inductive JsValue :=
| JsUndefined
| JsNull
| JsBool (b : bool)
| JsNumber (n : Z)
| JsString (s : string).

(** A plain object seen as its own enumerable properties. *)
Abbreviation JsObject := (gmap string JsValue).

(** [o.k]: reading a property that is not there gives [undefined]. *)
Definition get_prop (o : JsObject) (k : string) : JsValue :=
  default JsUndefined (o !! k).

Module JsError.
  (** [new Error(message)]. *)
Record t := Error { message : string }.
End JsError.

(** How a call settles: with a value, or with a thrown error. *)
Inductive Completion (A : Type) :=
| Return (a : A)
| Throw (e : JsError.t).
Arguments Return {A} a.
Arguments Throw {A} e.

Definition CancellationToken := bool.

(** ** The [vscode] interfaces the file uses *)

Module InteractiveSessionParticipantInformation.
Record t := mk { name : string; icon : option string }.
End InteractiveSessionParticipantInformation.

Module InteractiveSession.
Record t := mk {
    requester : option InteractiveSessionParticipantInformation.t;
    responder : option InteractiveSessionParticipantInformation.t;
    saveState : option (unit -> Completion JsValue)
  }.
End InteractiveSession.

Module InteractiveRequest.
Record t := mk { session : InteractiveSession.t; message : string }.
End InteractiveRequest.

Module InteractiveResponse.
Record t := mk { content : string; followups : option (list string) }.
End InteractiveResponse.

Module InteractiveProgress.
Record t := mk { content : string }.
End InteractiveProgress.

Module InteractiveResponseErrorDetails.
Record t := mk { message : string; responseIsIncomplete : option bool }.
End InteractiveResponseErrorDetails.

Module InteractiveResponseForProgress.
Record t := mk {
    followups : option (list string);
    commands : option (list JsObject);
    errorDetails : option InteractiveResponseErrorDetails.t
  }.
End InteractiveResponseForProgress.

Module InteractiveSessionProvider.
  (** [provideResponseWithProgress] calls [progress.report] some number of
      times while it runs and then settles: its model returns the
      increments it reports, in order, and its completion. *)
Record t := mk {
    prepareSession :
      JsValue -> CancellationToken -> Completion (option InteractiveSession.t);
    resolveRequest :
      option (InteractiveSession.t -> JsValue -> CancellationToken ->
              Completion (option InteractiveRequest.t));
    provideInitialSuggestions :
      option (CancellationToken -> Completion (option (list string)));
    provideResponse :
      option (InteractiveRequest.t -> CancellationToken ->
              Completion (option InteractiveResponse.t));
    provideResponseWithProgress :
      option (InteractiveRequest.t -> CancellationToken ->
              list InteractiveProgress.t *
              Completion (option InteractiveResponseForProgress.t));
    provideSlashCommands :
      option (InteractiveSession.t -> CancellationToken ->
              Completion (option (list JsObject)))
  }.
End InteractiveSessionProvider.

(** ** The protocol types ([extHost.protocol]) *)

Module IInteractiveSessionDto.
Record t := mk {
    id : Z;
    requesterUsername : option string;
    requesterAvatarIconUri : option string;
    responderUsername : option string;
    responderAvatarIconUri : option string
  }.
End IInteractiveSessionDto.

Module IInteractiveRequestDto.
Record t := mk { message : string }.
End IInteractiveRequestDto.

Module Timings.
Record t := mk { firstProgress : Z; totalElapsed : Z }.
End Timings.

Module IInteractiveResponseDto.
Record t := mk {
    followups : option (list string);
    commandFollowups : option (list JsObject);
    errorDetails : option InteractiveResponseErrorDetails.t;
    timings : Timings.t
  }.
End IInteractiveResponseDto.

(** The calls made on [MainThreadInteractiveSessionShape]. *)
Inductive ProxyCall :=
| registerInteractiveSessionProvider_ (handle : Z) (id : string) (implementsProgress : bool)
| unregisterInteractiveSessionProvider_ (handle : Z)
| addInteractiveSessionRequest_ (context : JsValue)
| acceptInteractiveSessionState_ (sessionId : Z) (state : JsValue)
| acceptInteractiveResponseProgress_ (handle sessionId : Z) (responsePart : string).

(** The calls made on [ILogService]. *)
Inductive LogEntry :=
| log_error (e : JsError.t)
| log_warn (e : JsError.t).

(** The capabilities of a provider. *)
Inductive Capability :=
| cap_prepareSession
| cap_resolveRequest
| cap_provideInitialSuggestions
| cap_provideResponse
| cap_provideResponseWithProgress
| cap_provideSlashCommands.

Global Instance Capability_eq_dec : EqDecision Capability.
Proof. solve_decision. Defined.

Module InteractiveSessionProviderWrapper.
Record t := mk {
    handle : Z;
    extension : string;
    provider : InteractiveSessionProvider.t
  }.
End InteractiveSessionProviderWrapper.

(** ** The state *)

(** The two static counters, the two maps of the instance, what was sent
    to the proxy and to the log, the clock the stopwatch reads
    ([Date_now k] is the value of the [k]-th reading), and the ghost trace
    of the provider capabilities that were called. *)
Record State := mkState {
  _pool : Z;
  _nextId : Z;
  _interactiveSessionProvider : gmap Z InteractiveSessionProviderWrapper.t;
  _interactiveSessions : gmap Z InteractiveSession.t;
  _proxy : list ProxyCall;
  logService : list LogEntry;
  Date_now : nat -> Z;
  clock_reads : nat;
  invoked : list (Z * Capability)
}.

Definition initial (clock : nat -> Z) : State :=
  mkState 0 0 ∅ ∅ [] [] clock 0%nat [].

Definition set_pool (v : Z) (s : State) : State :=
  mkState v (_nextId s) (_interactiveSessionProvider s) (_interactiveSessions s)
          (_proxy s) (logService s) (Date_now s) (clock_reads s) (invoked s).
Definition set_nextId (v : Z) (s : State) : State :=
  mkState (_pool s) v (_interactiveSessionProvider s) (_interactiveSessions s)
          (_proxy s) (logService s) (Date_now s) (clock_reads s) (invoked s).
Definition set_providers (v : gmap Z InteractiveSessionProviderWrapper.t) (s : State) : State :=
  mkState (_pool s) (_nextId s) v (_interactiveSessions s)
          (_proxy s) (logService s) (Date_now s) (clock_reads s) (invoked s).
Definition set_sessions (v : gmap Z InteractiveSession.t) (s : State) : State :=
  mkState (_pool s) (_nextId s) (_interactiveSessionProvider s) v
          (_proxy s) (logService s) (Date_now s) (clock_reads s) (invoked s).
Definition set_proxy (v : list ProxyCall) (s : State) : State :=
  mkState (_pool s) (_nextId s) (_interactiveSessionProvider s) (_interactiveSessions s)
          v (logService s) (Date_now s) (clock_reads s) (invoked s).
Definition set_log (v : list LogEntry) (s : State) : State :=
  mkState (_pool s) (_nextId s) (_interactiveSessionProvider s) (_interactiveSessions s)
          (_proxy s) v (Date_now s) (clock_reads s) (invoked s).
Definition set_clock_reads (v : nat) (s : State) : State :=
  mkState (_pool s) (_nextId s) (_interactiveSessionProvider s) (_interactiveSessions s)
          (_proxy s) (logService s) (Date_now s) v (invoked s).
Definition set_invoked (v : list (Z * Capability)) (s : State) : State :=
  mkState (_pool s) (_nextId s) (_interactiveSessionProvider s) (_interactiveSessions s)
          (_proxy s) (logService s) (Date_now s) (clock_reads s) v.

(** ** The monad of the methods *)

Definition M (A : Type) : Type := State -> Completion A * State.

Definition ret {A} (a : A) : M A := fun s => (Return a, s).

Definition throw {A} (e : JsError.t) : M A := fun s => (Throw e, s).

Definition bind {A B} (m : M A) (k : A -> M B) : M B :=
  fun s =>
    match m s with
    | (Return a, s') => k a s'
    | (Throw e, s') => (Throw e, s')
    end.

(** [try { m } catch (err) { h err }] *)
Definition try_catch {A} (m : M A) (h : JsError.t -> M A) : M A :=
  fun s =>
    match m s with
    | (Return a, s') => (Return a, s')
    | (Throw e, s') => h e s'
    end.

Definition gets {A} (f : State -> A) : M A := fun s => (Return (f s), s).

Definition modify (f : State -> State) : M unit := fun s => (Return tt, f s).

(** Settle as a called function did. *)
Definition settle {A} (c : Completion A) : M A := fun s => (c, s).

Notation "'let*' x := m 'in' k" := (bind m (fun x => k))
  (at level 10, x name, m at level 100, k at level 200,
   format "'[v' 'let*'  x  :=  m  'in'  '/' k ']'").
Notation "m ;;; k" := (bind m (fun _ => k))
  (at level 100, k at level 200, right associativity,
   format "'[v' m  ;;;  '/' k ']'").

(** [this._proxy.$...(...)]: fire and forget. *)
Definition proxy (c : ProxyCall) : M unit :=
  modify (fun s => set_proxy (_proxy s ++ [c]) s).

Definition logService_error (e : JsError.t) : M unit :=
  modify (fun s => set_log (logService s ++ [log_error e]) s).

Definition logService_warn (e : JsError.t) : M unit :=
  modify (fun s => set_log (logService s ++ [log_warn e]) s).

(** Calling the capability [cap] of the provider registered as [handle]:
    the call is recorded and settles as the provider's function did. *)
Definition invoke {A} (handle : Z) (cap : Capability) (c : Completion A) : M A :=
  modify (fun s => set_invoked (invoked s ++ [(handle, cap)]) s) ;;;
  settle c.

(** ** Collaborators that are not part of the file *)

Module StopWatch.
(** Modelled from the spec: the class [StopWatch] of
    [vs/base/common/stopwatch] is missing from the sources.  The spec asks
    for an elapsed-time measurement that is started once and read at the
    first increment and at completion: a watch remembers the reading of
    the clock at its creation.  The watch is never stopped by this file. *)
Record t := mk { _startTime : Z }.

(** One reading of the clock. *)
Definition _now : M Z :=
  fun s => (Return (Date_now s (clock_reads s)),
            set_clock_reads (S (clock_reads s)) s).

(** Modelled from the spec: [StopWatch.create] starts the measurement; it
    reads the clock once. *)
Definition create (highResolution : bool) : M t :=
  let* start := _now in
  ret (mk start).

(** Modelled from the spec: [elapsed] is the elapsed time, the current
    reading of the clock minus the reading at creation. *)
Definition elapsed (w : t) : M Z :=
  let* now := _now in
  ret (now - _startTime w).
End StopWatch.

(** The decimal digit a character stands for. *)
Definition digit_of (c : ascii) : option nat :=
  let n := nat_of_ascii c in
  if bool_decide (48 <= n <= 57)%nat then Some (n - 48)%nat else None.

(** Replace every placeholder [{i}], [i] a single digit, by the [i]-th
    argument; a placeholder without argument stays. *)
Fixpoint format (message : string) (args : list string) : string :=
  match message with
  | EmptyString => EmptyString
  | String c tl =>
      match c, tl with
      | "{"%char, String d (String "}"%char rest) =>
          match digit_of d ≫= (fun i => args !! i) with
          | Some arg => arg +:+ format rest args
          | None => String c (format tl args)
          end
      | _, _ => String c (format tl args)
      end
  end.

(** Modelled from the spec: [localize] of [vs/nls] is missing from the
    sources.  The spec asks that the message of a synthesized error embeds
    the text of the failure: the default message is used, its placeholders
    replaced by the arguments. *)
Definition localize (key message : string) (args : list string) : string :=
  format message args.

(** [withNullAsUndefined]: [null] and [undefined] are both [None] here. *)
Definition withNullAsUndefined {A} (x : option A) : option A := x.

(** ** class InteractiveSessionProviderWrapper *)

(** [new InteractiveSessionProviderWrapper(extension, provider)]: the field
    initializer [handle = _pool++] takes the next handle. *)
Definition new_InteractiveSessionProviderWrapper
    (extension : string) (provider : InteractiveSessionProvider.t)
  : M InteractiveSessionProviderWrapper.t :=
  let* handle := gets _pool in
  modify (set_pool (handle + 1)) ;;;
  ret (InteractiveSessionProviderWrapper.mk handle extension provider).

(** ** class ExtHostInteractiveSession *)

(** The [Disposable] that the registration returns is identified by the
    handle that is returned here; disposing of it is [dispose_registration]. *)
Definition registerInteractiveSessionProvider
    (extension id : string) (provider : InteractiveSessionProvider.t) : M Z :=
  let* wrapper := new_InteractiveSessionProviderWrapper extension provider in
  let handle := InteractiveSessionProviderWrapper.handle wrapper in
  modify (fun s => set_providers (<[handle := wrapper]> (_interactiveSessionProvider s)) s) ;;;
  proxy (registerInteractiveSessionProvider_ handle id
           (if InteractiveSessionProvider.provideResponseWithProgress provider is Some _
            then true else false)) ;;;
  ret handle.

Definition dispose_registration (handle : Z) : M unit :=
  proxy (unregisterInteractiveSessionProvider_ handle) ;;;
  modify (fun s => set_providers (delete handle (_interactiveSessionProvider s)) s).

Definition addInteractiveSessionRequest (context : JsValue) : M unit :=
  proxy (addInteractiveSessionRequest_ context).

Definition prepareInteractiveSession
    (handle : Z) (initialState : JsValue) (token : CancellationToken)
  : M (option IInteractiveSessionDto.t) :=
  let* entry := gets (fun s => _interactiveSessionProvider s !! handle) in
  match entry with
  | None => ret None
  | Some entry =>
      let provider := InteractiveSessionProviderWrapper.provider entry in
      let* session :=
        invoke handle cap_prepareSession
          (InteractiveSessionProvider.prepareSession provider initialState token) in
      match session with
      | None => ret None
      | Some session =>
          let* id := gets _nextId in
          modify (set_nextId (id + 1)) ;;;
          modify (fun s => set_sessions (<[id := session]> (_interactiveSessions s)) s) ;;;
          ret (Some (IInteractiveSessionDto.mk id
                 (InteractiveSessionParticipantInformation.name
                    <$> InteractiveSession.requester session)
                 (InteractiveSession.requester session
                    ≫= InteractiveSessionParticipantInformation.icon)
                 (InteractiveSessionParticipantInformation.name
                    <$> InteractiveSession.responder session)
                 (InteractiveSession.responder session
                    ≫= InteractiveSessionParticipantInformation.icon)))
      end
  end.

Definition resolveInteractiveRequest
    (handle sessionId : Z) (context : JsValue) (token : CancellationToken)
  : M (option IInteractiveRequestDto.t) :=
  let* entry := gets (fun s => _interactiveSessionProvider s !! handle) in
  match entry with
  | None => ret None
  | Some entry =>
      let provider := InteractiveSessionProviderWrapper.provider entry in
      let* realSession := gets (fun s => _interactiveSessions s !! sessionId) in
      match realSession with
      | None => ret None
      | Some realSession =>
          match InteractiveSessionProvider.resolveRequest provider with
          | None => ret None
          | Some resolveRequest =>
              let* request :=
                invoke handle cap_resolveRequest
                  (resolveRequest realSession context token) in
              match request with
              | Some request =>
                  ret (Some (IInteractiveRequestDto.mk (InteractiveRequest.message request)))
              | None => ret None
              end
          end
      end
  end.

Definition provideInitialSuggestions (handle : Z) (token : CancellationToken)
  : M (option (list string)) :=
  let* entry := gets (fun s => _interactiveSessionProvider s !! handle) in
  match entry with
  | None => ret None
  | Some entry =>
      let provider := InteractiveSessionProviderWrapper.provider entry in
      match InteractiveSessionProvider.provideInitialSuggestions provider with
      | None => ret None
      | Some provideInitialSuggestions =>
          let* suggestions :=
            invoke handle cap_provideInitialSuggestions
              (provideInitialSuggestions token) in
          ret (withNullAsUndefined suggestions)
      end
  end.

(** The statement
    [if (realSession.saveState) { const newState = realSession.saveState();
    this._proxy.$acceptInteractiveSessionState(sessionId, newState); }],
    which [$provideInteractiveReply] has once in each of its two modes. *)
Definition saveSessionState (sessionId : Z) (realSession : InteractiveSession.t) : M unit :=
  match InteractiveSession.saveState realSession with
  | Some saveState =>
      let* newState := settle (saveState tt) in
      proxy (acceptInteractiveSessionState_ sessionId newState)
  | None => ret tt
  end.

(** [progressObj.report(progress)]; the local variable [firstProgress] is
    passed in and out. *)
Definition report (handle sessionId : Z) (stopWatch : StopWatch.t)
    (firstProgress : option Z) (progress : InteractiveProgress.t) : M (option Z) :=
  let* firstProgress :=
    match firstProgress with
    | None =>
        let* elapsed := StopWatch.elapsed stopWatch in
        ret (Some elapsed)
    | Some _ => ret firstProgress
    end in
  proxy (acceptInteractiveResponseProgress_ handle sessionId
           (InteractiveProgress.content progress)) ;;;
  ret firstProgress.

(** The reports of one run of [provideResponseWithProgress], in order. *)
Fixpoint report_all (handle sessionId : Z) (stopWatch : StopWatch.t)
    (firstProgress : option Z) (increments : list InteractiveProgress.t)
  : M (option Z) :=
  match increments with
  | [] => ret firstProgress
  | progress :: rest =>
      let* firstProgress := report handle sessionId stopWatch firstProgress progress in
      report_all handle sessionId stopWatch firstProgress rest
  end.

(** The branch [if (entry.provider.provideResponse)]. *)
Definition reply_provideResponse
    (handle sessionId : Z) (realSession : InteractiveSession.t)
    (requestObj : InteractiveRequest.t) (token : CancellationToken)
    (provideResponse : InteractiveRequest.t -> CancellationToken ->
                       Completion (option InteractiveResponse.t))
  : M (option IInteractiveResponseDto.t) :=
  let* res := invoke handle cap_provideResponse (provideResponse requestObj token) in
  saveSessionState sessionId realSession ;;;
  match res with
  | None => ret None
  | Some res =>
      proxy (acceptInteractiveResponseProgress_ handle sessionId
               (InteractiveResponse.content res)) ;;;
      ret (Some (IInteractiveResponseDto.mk
                   (InteractiveResponse.followups res) None None
                   (Timings.mk 0 0)))
  end.

(** The branch [else if (entry.provider.provideResponseWithProgress)].  The
    increments reach the sink while the capability runs, before it settles;
    the sink does not throw, so the first [try] guards the settlement. *)
Definition reply_provideResponseWithProgress
    (handle sessionId : Z) (realSession : InteractiveSession.t)
    (requestObj : InteractiveRequest.t) (token : CancellationToken)
    (provideResponseWithProgress :
       InteractiveRequest.t -> CancellationToken ->
       list InteractiveProgress.t *
       Completion (option InteractiveResponseForProgress.t))
  : M (option IInteractiveResponseDto.t) :=
  let* stopWatch := StopWatch.create false in
  let run := provideResponseWithProgress requestObj token in
  let* firstProgress :=
    invoke handle cap_provideResponseWithProgress (Return tt) ;;;
    report_all handle sessionId stopWatch None (fst run) in
  let* result :=
    try_catch
      (let* result := settle (snd run) in
       match result with
       | Some result => ret result
       | None =>
           ret (InteractiveResponseForProgress.mk None None
                  (Some (InteractiveResponseErrorDetails.mk
                           (localize "emptyResponse" "Provider returned null response" [])
                           None)))
       end)
      (fun err =>
         let result :=
           InteractiveResponseForProgress.mk None None
             (Some (InteractiveResponseErrorDetails.mk
                      (localize "errorResponse" "Error from provider: {0}"
                                [JsError.message err])
                      (Some true))) in
         logService_error err ;;;
         ret result) in
  try_catch
    (saveSessionState sessionId realSession)
    (fun err => logService_warn err) ;;;
  let* totalElapsed := StopWatch.elapsed stopWatch in
  let timings := Timings.mk (default 0 firstProgress) totalElapsed in
  ret (Some (IInteractiveResponseDto.mk
               (InteractiveResponseForProgress.followups result)
               (InteractiveResponseForProgress.commands result)
               (InteractiveResponseForProgress.errorDetails result)
               timings)).

Definition provideInteractiveReply
    (handle sessionId : Z) (request : IInteractiveRequestDto.t) (token : CancellationToken)
  : M (option IInteractiveResponseDto.t) :=
  let* entry := gets (fun s => _interactiveSessionProvider s !! handle) in
  match entry with
  | None => ret None
  | Some entry =>
      let provider := InteractiveSessionProviderWrapper.provider entry in
      let* realSession := gets (fun s => _interactiveSessions s !! sessionId) in
      match realSession with
      | None => ret None
      | Some realSession =>
          let requestObj :=
            InteractiveRequest.mk realSession (IInteractiveRequestDto.message request) in
          match InteractiveSessionProvider.provideResponse provider with
          | Some provideResponse =>
              reply_provideResponse handle sessionId realSession requestObj token
                provideResponse
          | None =>
              match InteractiveSessionProvider.provideResponseWithProgress provider with
              | Some provideResponseWithProgress =>
                  reply_provideResponseWithProgress handle sessionId realSession
                    requestObj token provideResponseWithProgress
              | None =>
                  throw (JsError.Error
                    "Provider must implement either provideResponse or provideResponseWithProgress")
              end
          end
      end
  end.

Section SlashCommands.
  (** [typeConvert.CompletionItemKind.from], of [extHostTypeConverters]: a
      collaborator that is not part of the file. *)
Variable CompletionItemKind_from : JsValue -> JsValue.

  (** [{ ...c, kind: typeConvert.CompletionItemKind.from(c.kind) }] *)
Definition convertSlashCommand (c : JsObject) : JsObject :=
    <["kind" := CompletionItemKind_from (get_prop c "kind")]> c.

Definition provideSlashCommands
      (handle sessionId : Z) (token : CancellationToken)
    : M (option (list JsObject)) :=
    let* entry := gets (fun s => _interactiveSessionProvider s !! handle) in
    match entry with
    | None => ret None
    | Some entry =>
        let provider := InteractiveSessionProviderWrapper.provider entry in
        let* realSession := gets (fun s => _interactiveSessions s !! sessionId) in
        match realSession with
        | None => ret None
        | Some realSession =>
            match InteractiveSessionProvider.provideSlashCommands provider with
            | None => ret None
            | Some provideSlashCommands =>
                let* slashCommands :=
                  invoke handle cap_provideSlashCommands
                    (provideSlashCommands realSession token) in
                ret (fmap (M := list) convertSlashCommand <$> slashCommands)
            end
        end
    end.
End SlashCommands.

Definition releaseSession (sessionId : Z) : M unit :=
  modify (fun s => set_sessions (delete sessionId (_interactiveSessions s)) s).

(** ** Sequences of calls *)

(** One call of a method of the class, by the extension
    ([call_register], [call_dispose], [call_addRequest]) or by the main
    thread (the others). *)
Inductive Call :=
| call_register (extension id : string) (provider : InteractiveSessionProvider.t)
| call_dispose (handle : Z)
| call_addRequest (context : JsValue)
| call_prepare (handle : Z) (initialState : JsValue) (token : CancellationToken)
| call_resolve (handle sessionId : Z) (context : JsValue) (token : CancellationToken)
| call_suggestions (handle : Z) (token : CancellationToken)
| call_reply (handle sessionId : Z) (request : IInteractiveRequestDto.t)
             (token : CancellationToken)
| call_slashCommands (handle sessionId : Z) (token : CancellationToken)
| call_release (sessionId : Z).

(** What a call gave out: a provider handle, a session id, or neither. *)
Inductive Issued :=
| issued_handle (handle : Z)
| issued_id (id : Z)
| issued_nothing.

Definition issued_of_prepare (c : Completion (option IInteractiveSessionDto.t)) : Issued :=
  match c with
  | Return (Some dto) => issued_id (IInteractiveSessionDto.id dto)
  | _ => issued_nothing
  end.

Section Calls.
Variable CompletionItemKind_from : JsValue -> JsValue.

  (** The state after a call and what the call issued. *)
Definition exec (c : Call) (s : State) : Issued * State :=
    match c with
    | call_register extension id provider =>
        match registerInteractiveSessionProvider extension id provider s with
        | (Return handle, s') => (issued_handle handle, s')
        | (Throw _, s') => (issued_nothing, s')
        end
    | call_dispose handle => (issued_nothing, snd (dispose_registration handle s))
    | call_addRequest context => (issued_nothing, snd (addInteractiveSessionRequest context s))
    | call_prepare handle initialState token =>
        let r := prepareInteractiveSession handle initialState token s in
        (issued_of_prepare (fst r), snd r)
    | call_resolve handle sessionId context token =>
        (issued_nothing, snd (resolveInteractiveRequest handle sessionId context token s))
    | call_suggestions handle token =>
        (issued_nothing, snd (provideInitialSuggestions handle token s))
    | call_reply handle sessionId request token =>
        (issued_nothing, snd (provideInteractiveReply handle sessionId request token s))
    | call_slashCommands handle sessionId token =>
        (issued_nothing,
         snd (provideSlashCommands CompletionItemKind_from handle sessionId token s))
    | call_release sessionId => (issued_nothing, snd (releaseSession sessionId s))
    end.

  (** The calls of a sequence, one after the other: what they issued, in
      order, and the last state. *)
Fixpoint run (calls : list Call) (s : State) : list Issued * State :=
    match calls with
    | [] => ([], s)
    | c :: rest =>
        let '(i, s1) := exec c s in
        let '(issued, s2) := run rest s1 in
        (i :: issued, s2)
    end.
End Calls.

(** The provider handles and the session ids among what was issued. *)
Definition handles_of (l : list Issued) : list Z :=
  omap (fun i => if i is issued_handle h then Some h else None) l.

Definition ids_of (l : list Issued) : list Z :=
  omap (fun i => if i is issued_id id then Some id else None) l.

(** Every key of the two maps was issued by its counter. *)
Definition issued_by_counters (s : State) : Prop :=
  (forall h, is_Some (_interactiveSessionProvider s !! h) -> 0 <= h < _pool s) /\
  (forall id, is_Some (_interactiveSessions s !! id) -> 0 <= id < _nextId s).

(** The capabilities that were called during the step from [s] to [s'],
    in order. *)
Definition calls_during (s s' : State) : list Capability :=
  snd <$> drop (length (invoked s)) (invoked s').

(** The progress increments among the calls on the proxy. *)
Definition progress_of (l : list ProxyCall) : list (Z * Z * string) :=
  omap (fun c => if c is acceptInteractiveResponseProgress_ h i part
                 then Some (h, i, part) else None) l.

(** The calls on the proxy and on the log during the step from [s] to [s']. *)
Definition proxy_during (s s' : State) : list ProxyCall :=
  drop (length (_proxy s)) (_proxy s').

Definition log_during (s s' : State) : list LogEntry :=
  drop (length (logService s)) (logService s').

(** [m] takes every state to one that is [R]-related to it, however it
    settles. *)
Definition steps_within (R : State -> State -> Prop) {A} (m : M A) : Prop :=
  forall s, R s (snd (m s)).

(** The counters and the two maps are the same. *)
Definition same_registry (s s' : State) : Prop :=
  _pool s' = _pool s /\ _nextId s' = _nextId s /\
  _interactiveSessionProvider s' = _interactiveSessionProvider s /\
  _interactiveSessions s' = _interactiveSessions s.

(** The descriptor of a session that was stored under [id]. *)
Definition descriptor (id : Z) (session : InteractiveSession.t) : IInteractiveSessionDto.t :=
  IInteractiveSessionDto.mk id
    (InteractiveSessionParticipantInformation.name <$> InteractiveSession.requester session)
    (InteractiveSession.requester session ≫= InteractiveSessionParticipantInformation.icon)
    (InteractiveSessionParticipantInformation.name <$> InteractiveSession.responder session)
    (InteractiveSession.responder session ≫= InteractiveSessionParticipantInformation.icon).

(** The calls on the proxy that forward the increments of one run. *)
Definition progress_calls (handle sessionId : Z) (increments : list InteractiveProgress.t)
  : list ProxyCall :=
  (fun p => acceptInteractiveResponseProgress_ handle sessionId
              (InteractiveProgress.content p)) <$> increments.

(** The result that the progressive mode goes on with, by how
    [provideResponseWithProgress] settled. *)
Definition result_of (c : Completion (option InteractiveResponseForProgress.t))
  : InteractiveResponseForProgress.t :=
  match c with
  | Return (Some result) => result
  | Return None =>
      InteractiveResponseForProgress.mk None None
        (Some (InteractiveResponseErrorDetails.mk "Provider returned null response" None))
  | Throw err =>
      InteractiveResponseForProgress.mk None None
        (Some (InteractiveResponseErrorDetails.mk
                 ("Error from provider: " +:+ JsError.message err) (Some true)))
  end.

(** What a state-serialization attempt sends to the proxy, and what its
    failure is. *)
Definition saved_state (sessionId : Z) (realSession : InteractiveSession.t)
  : list ProxyCall :=
  match InteractiveSession.saveState realSession with
  | Some saveState =>
      if saveState tt is Return newState
      then [acceptInteractiveSessionState_ sessionId newState] else []
  | None => []
  end.

Definition save_failure (realSession : InteractiveSession.t) : option JsError.t :=
  match InteractiveSession.saveState realSession with
  | Some saveState => if saveState tt is Throw e then Some e else None
  | None => None
  end.

(** The clock does not run backwards. *)
Definition clock_monotone (s : State) : Prop :=
  forall i j : nat, (i <= j)%nat -> Date_now s i <= Date_now s j.

(** ** Scenarios *)

(** A session without [saveState], and one whose [saveState] throws. *)
Definition plain_session : InteractiveSession.t :=
  InteractiveSession.mk None None None.

Definition failing_session : InteractiveSession.t :=
  InteractiveSession.mk None None
    (Some (fun _ => Throw (JsError.Error "state is not serializable"))).

Definition answer : InteractiveResponse.t :=
  InteractiveResponse.mk "hello" (Some ["a"; "b"]).

(** A provider with neither response capability. *)
Definition bare_provider (session : InteractiveSession.t) : InteractiveSessionProvider.t :=
  InteractiveSessionProvider.mk
    (fun _ _ => Return (Some session)) None None None None None.

(** A provider with [provideResponse] only. *)
Definition sync_provider (session : InteractiveSession.t) : InteractiveSessionProvider.t :=
  InteractiveSessionProvider.mk
    (fun _ _ => Return (Some session)) None None
    (Some (fun _ _ => Return (Some answer))) None None.

(** A provider with [provideResponseWithProgress] only, which reports
    [increments] and settles as [completion]. *)
Definition progressive_provider (session : InteractiveSession.t)
    (increments : list InteractiveProgress.t)
    (completion : Completion (option InteractiveResponseForProgress.t))
  : InteractiveSessionProvider.t :=
  InteractiveSessionProvider.mk
    (fun _ _ => Return (Some session)) None None None
    (Some (fun _ _ => (increments, completion))) None.

(** A provider with both response capabilities. *)
Definition both_provider : InteractiveSessionProvider.t :=
  InteractiveSessionProvider.mk
    (fun _ _ => Return (Some plain_session)) None None
    (Some (fun _ _ => Return (Some answer)))
    (Some (fun _ _ =>
             ([InteractiveProgress.mk "hel"; InteractiveProgress.mk "lo"],
              Return (Some (InteractiveResponseForProgress.mk
                              (Some ["progressive"]) None None)))))
    None.

(** A provider whose [prepareSession] gives a session on a numeric initial
    state, nothing on [null] and throws otherwise. *)
Definition picky_provider : InteractiveSessionProvider.t :=
  InteractiveSessionProvider.mk
    (fun initialState _ =>
       match initialState with
       | JsNumber _ => Return (Some plain_session)
       | JsNull => Return None
       | _ => Throw (JsError.Error "cannot prepare")
       end)
    None None None None None.

(** A provider with two slash commands. *)
Definition slash_provider : InteractiveSessionProvider.t :=
  InteractiveSessionProvider.mk
    (fun _ _ => Return (Some plain_session)) None None None None
    (Some (fun _ _ =>
             Return (Some [ {[ "command" := JsString "fix"; "kind" := JsNumber 2;
                               "detail" := JsString "Fix the code" ]};
                            {[ "command" := JsString "explain" ]} ]))).

(** A kind conversion for the scenarios. *)
Definition next_kind (v : JsValue) : JsValue :=
  match v with
  | JsNumber n => JsNumber (n + 1)
  | _ => JsNumber 0
  end.

(** A clock that ticks by [step] at every reading. *)
Definition ticking (step : Z) : nat -> Z := fun k => 1000 + step * Z.of_nat k.

(** The state in which [provider] was registered, as handle 0, and has
    prepared one session, with id 0. *)
Definition registered (clock : nat -> Z) (provider : InteractiveSessionProvider.t) : State :=
  snd (run next_kind
         [call_register "extension" "provider" provider;
          call_prepare 0 JsUndefined false]
         (initial clock)).

Definition hi : IInteractiveRequestDto.t := IInteractiveRequestDto.mk "hi".

(** ** More observations and scenarios *)

(** The session-state notifications among the calls on the proxy. *)
Definition states_of (l : list ProxyCall) : list (Z * JsValue) :=
  omap (fun c => if c is acceptInteractiveSessionState_ i state
                 then Some (i, state) else None) l.

(** Nothing was sent to the proxy or to the log, and the clock was not
    read. *)
Definition quiet (s s' : State) : Prop :=
  _proxy s' = _proxy s /\ logService s' = logService s /\
  clock_reads s' = clock_reads s.

(** Every entry of the registry is stored under its own handle. *)
Definition keyed_by_handle (s : State) : Prop :=
  forall h w, _interactiveSessionProvider s !! h = Some w ->
              InteractiveSessionProviderWrapper.handle w = h.

(** A session with both display identities, whose [saveState] returns. *)
Definition saving_session : InteractiveSession.t :=
  InteractiveSession.mk
    (Some (InteractiveSessionParticipantInformation.mk "user" (Some "user.png")))
    (Some (InteractiveSessionParticipantInformation.mk "bot" None))
    (Some (fun _ => Return (JsString "saved"))).

(** A provider with [resolveRequest], which takes the message from a
    string context, gives nothing on [null] and throws otherwise, with
    [provideInitialSuggestions], and with a [provideSlashCommands] that
    throws. *)
Definition helper_provider : InteractiveSessionProvider.t :=
  InteractiveSessionProvider.mk
    (fun _ _ => Return (Some saving_session))
    (Some (fun session context _ =>
             match context with
             | JsString m => Return (Some (InteractiveRequest.mk session m))
             | JsNull => Return None
             | _ => Throw (JsError.Error "bad context")
             end))
    (Some (fun _ => Return (Some ["one"; "two"])))
    None None
    (Some (fun _ _ => Throw (JsError.Error "no commands"))).

(** * Properties *)

(** Unfolding of the monad and of the primitive effects. *)
Ltac unfold_M :=
  cbv [bind ret gets modify settle throw try_catch invoke proxy
       logService_error logService_warn withNullAsUndefined
       StopWatch.create StopWatch.elapsed StopWatch._now] in *.

Ltac destruct_match :=
  match goal with
  | |- context [match ?x with _ => _ end] => destruct x eqn:?
  end.

(** ** Not-found outcomes *)

Lemma prepare_unknown_handle s handle initialState token :
  _interactiveSessionProvider s !! handle = None ->
  prepareInteractiveSession handle initialState token s = (Return None, s).
Proof. intros H. unfold prepareInteractiveSession. unfold_M. by rewrite H. Qed.

Lemma resolve_unknown_handle s handle sessionId context token :
  _interactiveSessionProvider s !! handle = None ->
  resolveInteractiveRequest handle sessionId context token s = (Return None, s).
Proof. intros H. unfold resolveInteractiveRequest. unfold_M. by rewrite H. Qed.

Lemma suggestions_unknown_handle s handle token :
  _interactiveSessionProvider s !! handle = None ->
  provideInitialSuggestions handle token s = (Return None, s).
Proof. intros H. unfold provideInitialSuggestions. unfold_M. by rewrite H. Qed.

Lemma reply_unknown_handle s handle sessionId request token :
  _interactiveSessionProvider s !! handle = None ->
  provideInteractiveReply handle sessionId request token s = (Return None, s).
Proof. intros H. unfold provideInteractiveReply. unfold_M. by rewrite H. Qed.

Lemma slashCommands_unknown_handle from s handle sessionId token :
  _interactiveSessionProvider s !! handle = None ->
  provideSlashCommands from handle sessionId token s = (Return None, s).
Proof. intros H. unfold provideSlashCommands. unfold_M. by rewrite H. Qed.

Lemma resolve_unknown_session s handle sessionId context token :
  _interactiveSessions s !! sessionId = None ->
  resolveInteractiveRequest handle sessionId context token s = (Return None, s).
Proof.
  intros H. unfold resolveInteractiveRequest. unfold_M.
  destruct (_interactiveSessionProvider s !! handle); [by rewrite H | done].
Qed.

Lemma reply_unknown_session s handle sessionId request token :
  _interactiveSessions s !! sessionId = None ->
  provideInteractiveReply handle sessionId request token s = (Return None, s).
Proof.
  intros H. unfold provideInteractiveReply. unfold_M.
  destruct (_interactiveSessionProvider s !! handle); [by rewrite H | done].
Qed.

Lemma slashCommands_unknown_session from s handle sessionId token :
  _interactiveSessions s !! sessionId = None ->
  provideSlashCommands from handle sessionId token s = (Return None, s).
Proof.
  intros H. unfold provideSlashCommands. unfold_M.
  destruct (_interactiveSessionProvider s !! handle); [by rewrite H | done].
Qed.

Lemma dispose_unresolved s handle :
  _interactiveSessionProvider (snd (dispose_registration handle s)) !! handle = None.
Proof. unfold dispose_registration. unfold_M. simpl. apply lookup_delete_eq. Qed.

Lemma release_unresolved s sessionId :
  _interactiveSessions (snd (releaseSession sessionId s)) !! sessionId = None.
Proof. unfold releaseSession. unfold_M. simpl. apply lookup_delete_eq. Qed.

(** ** Steps that stay within a relation *)

Section Within.
Variable R : State -> State -> Prop.
Hypothesis R_refl : forall s, R s s.
Hypothesis R_trans : forall s1 s2 s3, R s1 s2 -> R s2 s3 -> R s1 s3.

Lemma ret_within {A} (a : A) : steps_within R (ret a).
  Proof. intros s. apply R_refl. Qed.

Lemma throw_within {A} e : steps_within R (@throw A e).
  Proof. intros s. apply R_refl. Qed.

Lemma gets_within {A} (f : State -> A) : steps_within R (gets f).
  Proof. intros s. apply R_refl. Qed.

Lemma settle_within {A} (c : Completion A) : steps_within R (settle c).
  Proof. intros s. apply R_refl. Qed.

Lemma modify_within f : (forall s, R s (f s)) -> steps_within R (modify f).
  Proof. intros H s. apply H. Qed.

Lemma bind_within {A B} (m : M A) (k : A -> M B) :
    steps_within R m -> (forall a, steps_within R (k a)) ->
    steps_within R (bind m k).
  Proof.
    intros Hm Hk s. unfold bind. specialize (Hm s).
    destruct (m s) as [[a|e] s1]; simpl in *; [| done].
    eapply R_trans; [exact Hm | apply Hk].
  Qed.

Lemma try_catch_within {A} (m : M A) (h : JsError.t -> M A) :
    steps_within R m -> (forall e, steps_within R (h e)) ->
    steps_within R (try_catch m h).
  Proof.
    intros Hm Hh s. unfold try_catch. specialize (Hm s).
    destruct (m s) as [[a|e] s1]; simpl in *; [done |].
    eapply R_trans; [exact Hm | apply Hh].
  Qed.
End Within.

(** Closes a goal [steps_within R m] for a method [m] whose effects
    [eff] proves to be within [R]. *)
Ltac within_with refl trans eff :=
  repeat first
    [ apply ret_within; exact refl
    | apply throw_within; exact refl
    | apply gets_within; exact refl
    | apply settle_within; exact refl
    | apply modify_within; intros ?; eff
    | apply bind_within; [exact trans | | intros ?]
    | apply try_catch_within; [exact trans | | intros ?]
    | progress (cbv beta zeta)
    | destruct_match ].

Lemma same_registry_refl s : same_registry s s.
Proof. by unfold same_registry. Qed.

Lemma same_registry_trans s1 s2 s3 :
  same_registry s1 s2 -> same_registry s2 s3 -> same_registry s1 s3.
Proof. unfold same_registry. intros (?&?&?&?) (?&?&?&?). repeat split; congruence. Qed.

Create HintDb registry.

Ltac within_registry :=
  repeat first
    [ solve [auto with registry]
    | within_with same_registry_refl same_registry_trans
        ltac:(by unfold same_registry) ].

Lemma proxy_registry c : steps_within same_registry (proxy c).
Proof. unfold proxy. within_registry. Qed.

Lemma logService_error_registry e : steps_within same_registry (logService_error e).
Proof. unfold logService_error. within_registry. Qed.

Lemma logService_warn_registry e : steps_within same_registry (logService_warn e).
Proof. unfold logService_warn. within_registry. Qed.

Lemma invoke_registry {A} h cap (c : Completion A) :
  steps_within same_registry (invoke h cap c).
Proof. unfold invoke. within_registry. Qed.

Lemma now_registry : steps_within same_registry StopWatch._now.
Proof. intros s. by unfold same_registry. Qed.

#[export] Hint Resolve proxy_registry logService_error_registry
  logService_warn_registry invoke_registry now_registry : registry.

Lemma create_registry b : steps_within same_registry (StopWatch.create b).
Proof. unfold StopWatch.create. within_registry. Qed.

Lemma elapsed_registry w : steps_within same_registry (StopWatch.elapsed w).
Proof. unfold StopWatch.elapsed. within_registry. Qed.

Lemma saveSessionState_registry sessionId realSession :
  steps_within same_registry (saveSessionState sessionId realSession).
Proof. unfold saveSessionState. within_registry. Qed.

#[export] Hint Resolve create_registry elapsed_registry
  saveSessionState_registry : registry.

Lemma report_registry h i w fp p : steps_within same_registry (report h i w fp p).
Proof. unfold report. within_registry. Qed.

#[export] Hint Resolve report_registry : registry.

Lemma report_all_registry h i w increments :
  forall fp, steps_within same_registry (report_all h i w fp increments).
Proof.
  induction increments as [|p rest IH]; intros fp; simpl; within_registry.
Qed.

#[export] Hint Resolve report_all_registry : registry.

Lemma addRequest_registry context :
  steps_within same_registry (addInteractiveSessionRequest context).
Proof. unfold addInteractiveSessionRequest. within_registry. Qed.

Lemma resolve_registry handle sessionId context token :
  steps_within same_registry (resolveInteractiveRequest handle sessionId context token).
Proof. unfold resolveInteractiveRequest. within_registry. Qed.

Lemma suggestions_registry handle token :
  steps_within same_registry (provideInitialSuggestions handle token).
Proof. unfold provideInitialSuggestions. within_registry. Qed.

Lemma reply_registry handle sessionId request token :
  steps_within same_registry (provideInteractiveReply handle sessionId request token).
Proof.
  unfold provideInteractiveReply, reply_provideResponse,
    reply_provideResponseWithProgress.
  within_registry.
Qed.

Lemma slashCommands_registry from handle sessionId token :
  steps_within same_registry (provideSlashCommands from handle sessionId token).
Proof. unfold provideSlashCommands. within_registry. Qed.

(** ** The two counters *)

Lemma register_eq extension id provider s :
  registerInteractiveSessionProvider extension id provider s =
  (Return (_pool s),
   set_proxy
     (_proxy s ++
      [registerInteractiveSessionProvider_ (_pool s) id
         (if InteractiveSessionProvider.provideResponseWithProgress provider is Some _
          then true else false)])
     (set_providers
        (<[_pool s := InteractiveSessionProviderWrapper.mk (_pool s) extension provider]>
           (_interactiveSessionProvider s))
        (set_pool (_pool s + 1) s))).
Proof. reflexivity. Qed.

Lemma prepare_eq s handle initialState token entry :
  _interactiveSessionProvider s !! handle = Some entry ->
  prepareInteractiveSession handle initialState token s =
  let s1 := set_invoked (invoked s ++ [(handle, cap_prepareSession)]) s in
  match InteractiveSessionProvider.prepareSession
          (InteractiveSessionProviderWrapper.provider entry) initialState token with
  | Throw e => (Throw e, s1)
  | Return None => (Return None, s1)
  | Return (Some session) =>
      (Return (Some (descriptor (_nextId s) session)),
       set_sessions (<[_nextId s := session]> (_interactiveSessions s))
         (set_nextId (_nextId s + 1) s1))
  end.
Proof.
  intros H. unfold prepareInteractiveSession. unfold_M. rewrite H.
  destruct (InteractiveSessionProvider.prepareSession _ _ _) as [[session|]|e];
    reflexivity.
Qed.

(** A preparation that returns a descriptor took the next id. *)
Lemma prepare_issues s handle initialState token dto s' :
  prepareInteractiveSession handle initialState token s = (Return (Some dto), s') ->
  IInteractiveSessionDto.id dto = _nextId s /\
  _nextId s' = _nextId s + 1 /\ _pool s' = _pool s /\
  _interactiveSessionProvider s' = _interactiveSessionProvider s /\
  exists session,
    _interactiveSessions s' = <[_nextId s := session]> (_interactiveSessions s).
Proof.
  destruct (_interactiveSessionProvider s !! handle) as [entry|] eqn:He.
  - rewrite (prepare_eq _ _ _ _ _ He). cbv zeta.
    destruct (InteractiveSessionProvider.prepareSession _ _ _) as [[session|]|e];
      intros [= <- <-]; simpl. eauto 10.
  - rewrite prepare_unknown_handle by done. intros [=].
Qed.

(** A preparation that returns no descriptor, or that throws, changes
    neither the counters nor the maps. *)
Lemma prepare_nothing s handle initialState token :
  issued_of_prepare (fst (prepareInteractiveSession handle initialState token s))
    = issued_nothing ->
  same_registry s (snd (prepareInteractiveSession handle initialState token s)).
Proof.
  destruct (_interactiveSessionProvider s !! handle) as [entry|] eqn:He.
  - rewrite (prepare_eq _ _ _ _ _ He). cbv zeta.
    destruct (InteractiveSessionProvider.prepareSession _ _ _) as [[session|]|e];
      simpl; intros; try discriminate; by unfold same_registry.
  - rewrite prepare_unknown_handle by done. intros _. apply same_registry_refl.
Qed.

(** What a call does to the counters, by what it issued. *)
Lemma exec_counters from c s :
  match fst (exec from c s) with
  | issued_handle h =>
      h = _pool s /\ _pool (snd (exec from c s)) = _pool s + 1 /\
      _nextId (snd (exec from c s)) = _nextId s
  | issued_id id =>
      id = _nextId s /\ _nextId (snd (exec from c s)) = _nextId s + 1 /\
      _pool (snd (exec from c s)) = _pool s
  | issued_nothing =>
      _pool (snd (exec from c s)) = _pool s /\
      _nextId (snd (exec from c s)) = _nextId s
  end.
Proof.
  destruct c; simpl.
  - done.
  - done.
  - done.
  - destruct (prepareInteractiveSession handle initialState token s)
      as [[[dto|]|e] s'] eqn:E; simpl.
    + apply prepare_issues in E. destruct E as (?&?&?&_). done.
    + pose proof (prepare_nothing s handle initialState token) as H.
      rewrite E in H. destruct H as (?&?&_); done.
    + pose proof (prepare_nothing s handle initialState token) as H.
      rewrite E in H. destruct H as (?&?&_); done.
  - destruct (resolve_registry handle sessionId context token s) as (?&?&_); done.
  - destruct (suggestions_registry handle token s) as (?&?&_); done.
  - destruct (reply_registry handle sessionId request token s) as (?&?&_); done.
  - destruct (slashCommands_registry from handle sessionId token s) as (?&?&_); done.
  - done.
Qed.

Lemma run_cons from c rest s :
  run from (c :: rest) s =
  (fst (exec from c s) :: fst (run from rest (snd (exec from c s))),
   snd (run from rest (snd (exec from c s)))).
Proof.
  simpl. destruct (exec from c s) as [i s1]. simpl.
  by destruct (run from rest s1).
Qed.

(** No call lowers a counter. *)
Lemma run_counters_le from calls :
  forall s, _pool s <= _pool (snd (run from calls s)) /\
            _nextId s <= _nextId (snd (run from calls s)).
Proof.
  induction calls as [|c rest IH]; intros s; [simpl; lia |].
  rewrite run_cons. simpl. specialize (IH (snd (exec from c s))).
  pose proof (exec_counters from c s) as H.
  destruct (fst (exec from c s)); lia.
Qed.

(** The handles that a sequence of calls issues are the consecutive
    integers that follow the counter, and so are the ids. *)
Lemma run_issues_consecutive from calls :
  forall s,
    handles_of (fst (run from calls s)) =
      seqZ (_pool s) (Z.of_nat (length (handles_of (fst (run from calls s))))) /\
    ids_of (fst (run from calls s)) =
      seqZ (_nextId s) (Z.of_nat (length (ids_of (fst (run from calls s))))).
Proof.
  induction calls as [|c rest IH]; intros s; [done |].
  rewrite run_cons. simpl. specialize (IH (snd (exec from c s))).
  pose proof (exec_counters from c s) as H.
  unfold handles_of, ids_of in *.
  destruct (fst (exec from c s)) as [h|id|]; simpl;
    destruct H as (H1 & H2 & H3) || destruct H as (H2 & H3);
    rewrite ?H2, ?H3 in IH; destruct IH as [IHh IHi].
  - split; [| done]. subst h. rewrite Nat2Z.inj_succ, seqZ_cons by lia.
    f_equal. rewrite IHh at 1. f_equal. lia.
  - split; [done |]. subst id. rewrite Nat2Z.inj_succ, seqZ_cons by lia.
    f_equal. rewrite IHi at 1. f_equal. lia.
  - done.
Qed.

(** Every key of the two maps is below its counter, in every state that a
    sequence of calls reaches from a state where this holds. *)
Lemma exec_issued_by_counters from c s :
  issued_by_counters s -> 0 <= _pool s -> 0 <= _nextId s ->
  issued_by_counters (snd (exec from c s)).
Proof.
  intros [Hp Hs] Hpool Hid.
  assert (Hsame : forall s', same_registry s s' -> issued_by_counters s').
  { intros s' (E1&E2&E3&E4). unfold issued_by_counters.
    rewrite E1, E2, E3, E4. done. }
  destruct c; simpl.
  - split; simpl; [| done]. intros h [w Hw].
    destruct (decide (_pool s = h)) as [<-|Hne]; [lia |].
    rewrite lookup_insert_ne in Hw by done.
    specialize (Hp h (ex_intro _ w Hw)). lia.
  - split; simpl; [| done]. intros h [w Hw].
    apply lookup_delete_Some in Hw as [_ Hw]. eauto.
  - by apply Hsame.
  - destruct (prepareInteractiveSession handle initialState token s)
      as [[[dto|]|e] s'] eqn:E; simpl.
    + apply prepare_issues in E as (_ & E2 & E1 & E3 & session & E4).
      unfold issued_by_counters. rewrite E1, E2, E3, E4. split; [done |].
      intros id [w Hw].
      destruct (decide (_nextId s = id)) as [<-|Hne]; [lia |].
      rewrite lookup_insert_ne in Hw by done.
      specialize (Hs id (ex_intro _ w Hw)). lia.
    + apply Hsame. pose proof (prepare_nothing s handle initialState token) as H.
      rewrite E in H. by apply H.
    + apply Hsame. pose proof (prepare_nothing s handle initialState token) as H.
      rewrite E in H. by apply H.
  - apply Hsame, resolve_registry.
  - apply Hsame, suggestions_registry.
  - apply Hsame, reply_registry.
  - apply Hsame, slashCommands_registry.
  - split; simpl; [done |]. intros id [w Hw].
    apply lookup_delete_Some in Hw as [_ Hw]. eauto.
Qed.

Lemma run_issued_by_counters from calls :
  forall s, issued_by_counters s -> 0 <= _pool s -> 0 <= _nextId s ->
            issued_by_counters (snd (run from calls s)).
Proof.
  induction calls as [|c rest IH]; intros s Hs Hp Hi; [done |].
  rewrite run_cons. simpl.
  pose proof (exec_counters from c s) as H.
  apply IH; [by apply exec_issued_by_counters | |];
    destruct (fst (exec from c s)); lia.
Qed.

Lemma initial_issued_by_counters clock : issued_by_counters (initial clock).
Proof. split; intros k [x Hx]; simpl in Hx; by rewrite lookup_empty in Hx. Qed.

(** ** The two response modes *)

Lemma append_empty_r (m : string) : m +:+ "" = m.
Proof.
  induction m as [|c m IH]; [done |].
  change (String c (m +:+ "") = String c m). by rewrite IH.
Qed.

Lemma localize_emptyResponse :
  localize "emptyResponse" "Provider returned null response" [] =
  "Provider returned null response".
Proof. reflexivity. Qed.

Lemma localize_errorResponse (m : string) :
  localize "errorResponse" "Error from provider: {0}" [m] =
  "Error from provider: " +:+ m.
Proof.
  transitivity ("Error from provider: " +:+ (m +:+ "")); [reflexivity |].
  by rewrite append_empty_r.
Qed.

Arguments localize : simpl never.

Lemma drop_own_length {A} (l k : list A) : drop (length l) (l ++ k) = k.
Proof. by rewrite drop_app_length. Qed.

(** Once [firstProgress] is set, the reports only forward. *)
Lemma report_all_set h i w v increments :
  forall s,
    report_all h i w (Some v) increments s =
    (Return (Some v), set_proxy (_proxy s ++ progress_calls h i increments) s).
Proof.
  induction increments as [|p rest IH]; intros s.
  - destruct s. simpl. unfold ret, set_proxy. simpl. by rewrite app_nil_r.
  - simpl. unfold bind at 1. unfold report. unfold_M. rewrite IH.
    unfold set_proxy. simpl. by rewrite <- app_assoc.
Qed.

(** The first report reads the clock, once. *)
Lemma report_all_unset h i w p rest s :
  report_all h i w None (p :: rest) s =
  (Return (Some (Date_now s (clock_reads s) - StopWatch._startTime w)),
   set_proxy (_proxy s ++ progress_calls h i (p :: rest))
     (set_clock_reads (S (clock_reads s)) s)).
Proof.
  simpl. unfold bind at 1. unfold report. unfold_M. rewrite report_all_set.
  unfold set_proxy. simpl. by rewrite <- app_assoc.
Qed.

(** The synchronous mode, by how [provideResponse] and [saveState] settle. *)
Lemma reply_provideResponse_outcome h i realSession requestObj token f s :
  let out := reply_provideResponse h i realSession requestObj token f s in
  invoked (snd out) = invoked s ++ [(h, cap_provideResponse)] /\
  logService (snd out) = logService s /\
  match f requestObj token with
  | Throw e => fst out = Throw e /\ _proxy (snd out) = _proxy s
  | Return res =>
      match save_failure realSession with
      | Some e => fst out = Throw e /\ _proxy (snd out) = _proxy s
      | None =>
          match res with
          | None =>
              fst out = Return None /\
              _proxy (snd out) = _proxy s ++ saved_state i realSession
          | Some res =>
              fst out =
                Return (Some (IInteractiveResponseDto.mk
                                (InteractiveResponse.followups res) None None
                                (Timings.mk 0 0))) /\
              _proxy (snd out) =
                _proxy s ++ saved_state i realSession ++
                [acceptInteractiveResponseProgress_ h i (InteractiveResponse.content res)]
          end
      end
  end.
Proof.
  unfold reply_provideResponse, saveSessionState, save_failure, saved_state.
  unfold_M. cbv zeta.
  destruct (f requestObj token) as [[res|]|e]; simpl;
    destruct (InteractiveSession.saveState realSession) as [saveState|]; simpl;
    try destruct (saveState tt) as [newState|e']; simpl;
    rewrite <- ?app_assoc, ?app_nil_r; done.
Qed.

(** The progressive mode always returns a response. *)
Lemma reply_provideResponseWithProgress_outcome h i realSession requestObj token f s :
  let out := reply_provideResponseWithProgress h i realSession requestObj token f s in
  let increments := fst (f requestObj token) in
  let result := result_of (snd (f requestObj token)) in
  let n := clock_reads s in
  let start := Date_now s n in
  fst out =
    Return (Some (IInteractiveResponseDto.mk
                    (InteractiveResponseForProgress.followups result)
                    (InteractiveResponseForProgress.commands result)
                    (InteractiveResponseForProgress.errorDetails result)
                    (Timings.mk
                       (if increments is [] then 0 else Date_now s (S n) - start)
                       (Date_now s (if increments is [] then S n else S (S n)) - start)))) /\
  invoked (snd out) = invoked s ++ [(h, cap_provideResponseWithProgress)] /\
  logService (snd out) =
    logService s ++
    (if snd (f requestObj token) is Throw e then [log_error e] else []) ++
    (if save_failure realSession is Some e then [log_warn e] else []) /\
  _proxy (snd out) =
    _proxy s ++ progress_calls h i increments ++ saved_state i realSession.
Proof.
  unfold reply_provideResponseWithProgress, saveSessionState, save_failure, saved_state.
  cbv zeta.
  unfold bind at 1. unfold StopWatch.create at 1. unfold_M.
  destruct (f requestObj token) as [increments completion]. simpl.
  destruct increments as [|p rest].
  - simpl. unfold_M.
    destruct completion as [[result|]|e]; simpl;
      destruct (InteractiveSession.saveState realSession) as [saveState|]; simpl;
      try destruct (saveState tt) as [newState|e']; simpl;
      rewrite ?localize_emptyResponse, ?localize_errorResponse,
        <- ?app_assoc, ?app_nil_r; done.
  - rewrite report_all_unset. simpl.
    destruct completion as [[result|]|e]; simpl;
      destruct (InteractiveSession.saveState realSession) as [saveState|]; simpl;
      try destruct (saveState tt) as [newState|e']; simpl;
      rewrite ?localize_emptyResponse, ?localize_errorResponse,
        <- ?app_assoc, ?app_nil_r; done.
Qed.

Lemma reply_resolved s handle sessionId request token entry realSession :
  _interactiveSessionProvider s !! handle = Some entry ->
  _interactiveSessions s !! sessionId = Some realSession ->
  provideInteractiveReply handle sessionId request token s =
  let provider := InteractiveSessionProviderWrapper.provider entry in
  let requestObj :=
    InteractiveRequest.mk realSession (IInteractiveRequestDto.message request) in
  match InteractiveSessionProvider.provideResponse provider with
  | Some f => reply_provideResponse handle sessionId realSession requestObj token f s
  | None =>
      match InteractiveSessionProvider.provideResponseWithProgress provider with
      | Some g =>
          reply_provideResponseWithProgress handle sessionId realSession requestObj token g s
      | None =>
          (Throw (JsError.Error
             "Provider must implement either provideResponse or provideResponseWithProgress"),
           s)
      end
  end.
Proof.
  intros He Hs. unfold provideInteractiveReply.
  unfold bind at 1. unfold gets at 1. rewrite He.
  unfold bind at 1. unfold gets at 1. rewrite Hs. cbv zeta.
  destruct (InteractiveSessionProvider.provideResponse _); [done |].
  by destruct (InteractiveSessionProvider.provideResponseWithProgress _).
Qed.

(** A handle that was issued and does not resolve will not resolve again,
    and neither will such a session id. *)
Lemma exec_stays_unresolved from c s :
  (forall h, h < _pool s -> _interactiveSessionProvider s !! h = None ->
             _interactiveSessionProvider (snd (exec from c s)) !! h = None) /\
  (forall id, id < _nextId s -> _interactiveSessions s !! id = None ->
              _interactiveSessions (snd (exec from c s)) !! id = None).
Proof.
  assert (Hsame : forall s', same_registry s s' ->
    (forall h, h < _pool s -> _interactiveSessionProvider s !! h = None ->
               _interactiveSessionProvider s' !! h = None) /\
    (forall id, id < _nextId s -> _interactiveSessions s !! id = None ->
                _interactiveSessions s' !! id = None)).
  { intros s' (_&_&E3&E4). rewrite E3, E4. done. }
  destruct c; simpl.
  - split; simpl; [| done]. intros h Hlt Hn. rewrite lookup_insert_ne by lia. done.
  - split; simpl; [| done]. intros h Hlt Hn. rewrite lookup_delete_None. by right.
  - by apply Hsame.
  - destruct (prepareInteractiveSession handle initialState token s)
      as [[[dto|]|e] s'] eqn:E; simpl.
    + apply prepare_issues in E as (_ & _ & _ & E3 & session & E4).
      rewrite E3, E4. split; [done |].
      intros id Hlt Hn. rewrite lookup_insert_ne by lia. done.
    + apply Hsame. pose proof (prepare_nothing s handle initialState token) as H.
      rewrite E in H. by apply H.
    + apply Hsame. pose proof (prepare_nothing s handle initialState token) as H.
      rewrite E in H. by apply H.
  - apply Hsame, resolve_registry.
  - apply Hsame, suggestions_registry.
  - apply Hsame, reply_registry.
  - apply Hsame, slashCommands_registry.
  - split; simpl; [done |]. intros id Hlt Hn. rewrite lookup_delete_None. by right.
Qed.

Lemma run_stays_unresolved from calls :
  forall s,
    (forall h, h < _pool s -> _interactiveSessionProvider s !! h = None ->
               _interactiveSessionProvider (snd (run from calls s)) !! h = None) /\
    (forall id, id < _nextId s -> _interactiveSessions s !! id = None ->
                _interactiveSessions (snd (run from calls s)) !! id = None).
Proof.
  induction calls as [|c rest IH]; intros s; [done |].
  rewrite run_cons. simpl.
  destruct (exec_stays_unresolved from c s) as [Hp Hs].
  destruct (IH (snd (exec from c s))) as [IHp IHs].
  pose proof (exec_counters from c s) as Hc.
  split.
  - intros h Hlt Hn. apply IHp; [| by apply Hp].
    destruct (fst (exec from c s)); lia.
  - intros id Hlt Hn. apply IHs; [| by apply Hs].
    destruct (fst (exec from c s)); lia.
Qed.

(** * The claims *)

(** C6.  A provider handle that does not resolve (it was never issued, or
    its registration was disposed of) makes each of [$prepareInteractiveSession],
    [$resolveInteractiveRequest], [$provideInitialSuggestions],
    [$provideInteractiveReply] and [$provideSlashCommands] return [undefined]
    without throwing and without any effect; a session id that does not
    resolve (never issued, or released) does the same to the three methods
    that take one.  In the states that calls reach from the initial one, a
    handle or an id outside what its counter issued does not resolve; a
    disposed handle and a released id do not resolve, and never will. *)
Theorem not_found_returns_undefined (from : JsValue -> JsValue) :
  (forall s handle,
      _interactiveSessionProvider s !! handle = None ->
      forall sessionId initialState context request token,
        prepareInteractiveSession handle initialState token s = (Return None, s) /\
        resolveInteractiveRequest handle sessionId context token s = (Return None, s) /\
        provideInitialSuggestions handle token s = (Return None, s) /\
        provideInteractiveReply handle sessionId request token s = (Return None, s) /\
        provideSlashCommands from handle sessionId token s = (Return None, s)) /\
  (forall s sessionId,
      _interactiveSessions s !! sessionId = None ->
      forall handle context request token,
        resolveInteractiveRequest handle sessionId context token s = (Return None, s) /\
        provideInteractiveReply handle sessionId request token s = (Return None, s) /\
        provideSlashCommands from handle sessionId token s = (Return None, s)) /\
  (forall clock calls k,
      let s := snd (run from calls (initial clock)) in
      (k < 0 \/ _pool s <= k -> _interactiveSessionProvider s !! k = None) /\
      (k < 0 \/ _nextId s <= k -> _interactiveSessions s !! k = None)) /\
  (forall clock calls handle sessionId later,
      let s := snd (run from calls (initial clock)) in
      (is_Some (_interactiveSessionProvider s !! handle) ->
       _interactiveSessionProvider
         (snd (run from (call_dispose handle :: later) s)) !! handle = None) /\
      (is_Some (_interactiveSessions s !! sessionId) ->
       _interactiveSessions
         (snd (run from (call_release sessionId :: later) s)) !! sessionId = None)).
Proof.
  split; [| split; [| split]].
  - intros s handle H sessionId initialState context request token.
    repeat split;
      auto using prepare_unknown_handle, resolve_unknown_handle,
        suggestions_unknown_handle, reply_unknown_handle, slashCommands_unknown_handle.
  - intros s sessionId H handle context request token.
    repeat split;
      auto using resolve_unknown_session, reply_unknown_session,
        slashCommands_unknown_session.
  - intros clock calls k s.
    destruct (run_issued_by_counters from calls (initial clock)
                (initial_issued_by_counters clock)) as [Hp Hs]; [done | done |].
    fold s in Hp, Hs. split; intros Hk.
    + destruct (_interactiveSessionProvider s !! k) eqn:E; [| done].
      specialize (Hp k (ex_intro _ _ E)). lia.
    + destruct (_interactiveSessions s !! k) eqn:E; [| done].
      specialize (Hs k (ex_intro _ _ E)). lia.
  - intros clock calls handle sessionId later s.
    destruct (run_issued_by_counters from calls (initial clock)
                (initial_issued_by_counters clock)) as [Hp Hs]; [done | done |].
    fold s in Hp, Hs. split; intros Hk; rewrite run_cons; simpl.
    + apply run_stays_unresolved; simpl; [apply Hp in Hk; lia |].
      apply lookup_delete_eq.
    + apply run_stays_unresolved; simpl; [apply Hs in Hk; lia |].
      apply lookup_delete_eq.
Qed.

Lemma not_found_returns_undefined_witness :
  let s := registered (ticking 1) (sync_provider plain_session) in
  provideInteractiveReply 1 0 hi false s = (Return None, s) /\
  provideInteractiveReply 0 1 hi false s = (Return None, s) /\
  _interactiveSessionProvider s !! 7 = None /\
  _interactiveSessions
    (snd (run next_kind [call_release 0; call_prepare 0 JsNull false] s)) !! 0 = None.
Proof.
  intros s.
  destruct (not_found_returns_undefined next_kind) as (H1 & H2 & H3 & H4).
  split; [| split; [| split]].
  - apply (H1 s 1 eq_refl 0 JsNull JsNull hi false).
  - apply (H2 s 1 eq_refl 0 JsNull hi false).
  - apply (H3 (ticking 1)
              [call_register "extension" "provider" (sync_provider plain_session);
               call_prepare 0 JsUndefined false] 7).
    right. vm_compute. discriminate.
  - apply (H4 (ticking 1)
              [call_register "extension" "provider" (sync_provider plain_session);
               call_prepare 0 JsUndefined false] 0 0).
    vm_compute. eauto.
Defined.

(** C3.  When the provider and the session resolve and the provider has
    neither [provideResponse] nor [provideResponseWithProgress],
    [$provideInteractiveReply] throws, with no effect; every not-found
    outcome of the method returns [undefined] instead, which is another
    outcome. *)
Theorem neither_capability_throws s handle sessionId request token entry realSession :
  _interactiveSessionProvider s !! handle = Some entry ->
  _interactiveSessions s !! sessionId = Some realSession ->
  InteractiveSessionProvider.provideResponse
    (InteractiveSessionProviderWrapper.provider entry) = None ->
  InteractiveSessionProvider.provideResponseWithProgress
    (InteractiveSessionProviderWrapper.provider entry) = None ->
  provideInteractiveReply handle sessionId request token s =
    (Throw (JsError.Error
       "Provider must implement either provideResponse or provideResponseWithProgress"),
     s) /\
  forall s0 handle0 sessionId0 request0 token0,
    _interactiveSessionProvider s0 !! handle0 = None \/
    _interactiveSessions s0 !! sessionId0 = None ->
    fst (provideInteractiveReply handle0 sessionId0 request0 token0 s0) = Return None /\
    fst (provideInteractiveReply handle0 sessionId0 request0 token0 s0) <>
    fst (provideInteractiveReply handle sessionId request token s).
Proof.
  intros He Hs H1 H2.
  assert (E : provideInteractiveReply handle sessionId request token s =
    (Throw (JsError.Error
       "Provider must implement either provideResponse or provideResponseWithProgress"),
     s)).
  { rewrite (reply_resolved _ _ _ _ _ _ _ He Hs). cbv zeta. by rewrite H1, H2. }
  split; [exact E |].
  intros s0 handle0 sessionId0 request0 token0 H0. rewrite E.
  destruct H0 as [H0|H0].
  - by rewrite reply_unknown_handle.
  - by rewrite reply_unknown_session.
Qed.

Lemma neither_capability_throws_witness :
  let s := registered (ticking 1) (bare_provider plain_session) in
  provideInteractiveReply 0 0 hi false s =
    (Throw (JsError.Error
       "Provider must implement either provideResponse or provideResponseWithProgress"),
     s).
Proof.
  intros s.
  refine (proj1 (neither_capability_throws s 0 0 hi false
            (InteractiveSessionProviderWrapper.mk 0 "extension" (bare_provider plain_session))
            plain_session _ _ _ _)); reflexivity.
Defined.

(** C1, as the code has it.  When the provider and the session resolve,
    the mode of the reply follows [provideResponse] first: a provider that
    has [provideResponse] is asked through it and through nothing else,
    whether or not it also has [provideResponseWithProgress];
    [provideResponseWithProgress] is called exactly when the provider has
    it and has no [provideResponse]. *)
Theorem response_mode_by_capability s handle sessionId request token entry realSession :
  _interactiveSessionProvider s !! handle = Some entry ->
  _interactiveSessions s !! sessionId = Some realSession ->
  let provider := InteractiveSessionProviderWrapper.provider entry in
  let s' := snd (provideInteractiveReply handle sessionId request token s) in
  (is_Some (InteractiveSessionProvider.provideResponse provider) ->
   calls_during s s' = [cap_provideResponse]) /\
  (InteractiveSessionProvider.provideResponse provider = None ->
   is_Some (InteractiveSessionProvider.provideResponseWithProgress provider) ->
   calls_during s s' = [cap_provideResponseWithProgress]) /\
  (cap_provideResponseWithProgress ∈ calls_during s s' <->
   InteractiveSessionProvider.provideResponse provider = None /\
   is_Some (InteractiveSessionProvider.provideResponseWithProgress provider)).
Proof.
  intros He Hs provider s'. subst s'.
  rewrite (reply_resolved _ _ _ _ _ _ _ He Hs). cbv zeta. fold provider.
  unfold calls_during.
  destruct (InteractiveSessionProvider.provideResponse provider) as [f|].
  - destruct (reply_provideResponse_outcome handle sessionId realSession
                (InteractiveRequest.mk realSession (IInteractiveRequestDto.message request))
                token f s) as (Hi & _).
    rewrite Hi, drop_own_length. simpl.
    split; [done |]. split; [done |]. split.
    + intros H%list_elem_of_singleton. discriminate.
    + intros [? _]. discriminate.
  - destruct (InteractiveSessionProvider.provideResponseWithProgress provider) as [g|].
    + destruct (reply_provideResponseWithProgress_outcome handle sessionId realSession
                  (InteractiveRequest.mk realSession (IInteractiveRequestDto.message request))
                  token g s) as (_ & Hi & _).
      rewrite Hi, drop_own_length. simpl.
      split; [by intros [? ?] |]. split; [done |]. split; [done |].
      intros _. by apply list_elem_of_singleton.
    + simpl. rewrite drop_all. simpl.
      split; [by intros [? ?] |]. split; [by intros _ [? ?] |]. split.
      * intros H. by apply elem_of_nil in H.
      * intros [_ [? ?]]. discriminate.
Qed.

Lemma response_mode_by_capability_witness :
  let s := registered (ticking 1) both_provider in
  calls_during s (snd (provideInteractiveReply 0 0 hi false s)) = [cap_provideResponse].
Proof.
  intros s.
  refine (proj1 (response_mode_by_capability s 0 0 hi false
            (InteractiveSessionProviderWrapper.mk 0 "extension" both_provider)
            plain_session eq_refl eq_refl) _).
  simpl. eauto.
Defined.

(** C1, as the claim has it, fails: a provider with both capabilities is
    registered as handle 0 and has prepared session 0; its reply comes from
    [provideResponse], and [provideResponseWithProgress] is not called. *)
Lemma progressive_not_preferred :
  let s := registered (ticking 1) both_provider in
  let out := provideInteractiveReply 0 0 hi false s in
  (exists entry,
      _interactiveSessionProvider s !! 0 = Some entry /\
      is_Some (InteractiveSessionProvider.provideResponseWithProgress
                 (InteractiveSessionProviderWrapper.provider entry)) /\
      is_Some (InteractiveSessionProvider.provideResponse
                 (InteractiveSessionProviderWrapper.provider entry))) /\
  is_Some (_interactiveSessions s !! 0) /\
  (cap_provideResponseWithProgress ∉ calls_during s (snd out)) /\
  calls_during s (snd out) = [cap_provideResponse] /\
  fst out =
    Return (Some (IInteractiveResponseDto.mk (Some ["a"; "b"]) None None (Timings.mk 0 0))).
Proof.
  intros s out. split; [| split; [| split; [| split]]].
  - eexists. split; [reflexivity |]. simpl. eauto.
  - vm_compute. eauto.
  - assert (E : calls_during s (snd out) = [cap_provideResponse]) by reflexivity.
    rewrite E. intros H%list_elem_of_singleton. discriminate.
  - reflexivity.
  - reflexivity.
Qed.

(** C2, where the code departs from the claim.  A provider with
    [provideResponse] only has produced its answer; [saveState] of the
    session throws.  The error of [saveState] is what
    [$provideInteractiveReply] throws: the answer is lost, nothing is
    logged, and no progress increment is forwarded. *)
Theorem sync_saveState_failure_propagates :
  let s := registered (ticking 1) (sync_provider failing_session) in
  let out := provideInteractiveReply 0 0 hi false s in
  fst out = Throw (JsError.Error "state is not serializable") /\
  calls_during s (snd out) = [cap_provideResponse] /\
  log_during s (snd out) = [] /\
  proxy_during s (snd out) = [].
Proof. intros s out. repeat split; reflexivity. Qed.

(** The progressive mode does contain a failure of [saveState]: it is
    logged as a warning, and the response is the one that the result of
    the provider gives. *)
Lemma progressive_saveState_failure_contained
    s handle sessionId request token entry realSession g e :
  _interactiveSessionProvider s !! handle = Some entry ->
  _interactiveSessions s !! sessionId = Some realSession ->
  InteractiveSessionProvider.provideResponse
    (InteractiveSessionProviderWrapper.provider entry) = None ->
  InteractiveSessionProvider.provideResponseWithProgress
    (InteractiveSessionProviderWrapper.provider entry) = Some g ->
  save_failure realSession = Some e ->
  let out := provideInteractiveReply handle sessionId request token s in
  let result :=
    result_of (snd (g (InteractiveRequest.mk realSession
                         (IInteractiveRequestDto.message request)) token)) in
  (exists timings,
      fst out =
        Return (Some (IInteractiveResponseDto.mk
                        (InteractiveResponseForProgress.followups result)
                        (InteractiveResponseForProgress.commands result)
                        (InteractiveResponseForProgress.errorDetails result)
                        timings))) /\
  last (log_during s (snd out)) = Some (log_warn e).
Proof.
  intros He Hs H1 H2 Hsave out result. subst out result.
  rewrite (reply_resolved _ _ _ _ _ _ _ He Hs). cbv zeta. rewrite H1, H2.
  destruct (reply_provideResponseWithProgress_outcome handle sessionId realSession
              (InteractiveRequest.mk realSession (IInteractiveRequestDto.message request))
              token g s) as (Hr & _ & Hl & _).
  split; [eexists; exact Hr |].
  unfold log_during. rewrite Hl, drop_own_length, Hsave.
  by rewrite last_snoc.
Qed.

(** C4.  In the progressive mode (the provider has
    [provideResponseWithProgress] and no [provideResponse]), when
    [provideResponseWithProgress] throws [err], [$provideInteractiveReply]
    does not throw: it logs [err] as an error, before anything else it
    logs, and returns a response whose error details have the message
    "Error from provider: " followed by the message of [err], and
    [responseIsIncomplete] set to [true]. *)
Theorem progressive_failure_is_a_response
    s handle sessionId request token entry realSession g err :
  _interactiveSessionProvider s !! handle = Some entry ->
  _interactiveSessions s !! sessionId = Some realSession ->
  InteractiveSessionProvider.provideResponse
    (InteractiveSessionProviderWrapper.provider entry) = None ->
  InteractiveSessionProvider.provideResponseWithProgress
    (InteractiveSessionProviderWrapper.provider entry) = Some g ->
  snd (g (InteractiveRequest.mk realSession (IInteractiveRequestDto.message request))
         token) = Throw err ->
  let out := provideInteractiveReply handle sessionId request token s in
  exists response,
    fst out = Return (Some response) /\
    IInteractiveResponseDto.errorDetails response =
      Some (InteractiveResponseErrorDetails.mk
              ("Error from provider: " +:+ JsError.message err) (Some true)) /\
    IInteractiveResponseDto.followups response = None /\
    IInteractiveResponseDto.commandFollowups response = None /\
    head (log_during s (snd out)) = Some (log_error err).
Proof.
  intros He Hs H1 H2 Hthrow out. subst out.
  rewrite (reply_resolved _ _ _ _ _ _ _ He Hs). cbv zeta. rewrite H1, H2.
  destruct (reply_provideResponseWithProgress_outcome handle sessionId realSession
              (InteractiveRequest.mk realSession (IInteractiveRequestDto.message request))
              token g s) as (Hr & _ & Hl & _).
  rewrite Hthrow in Hr, Hl. simpl in Hr.
  eexists. split; [exact Hr |]. simpl.
  repeat split. unfold log_during. by rewrite Hl, drop_own_length.
Qed.

Lemma progressive_failure_is_a_response_witness :
  let s := registered (ticking 1)
             (progressive_provider failing_session [InteractiveProgress.mk "par"]
                (Throw (JsError.Error "boom"))) in
  exists response,
    fst (provideInteractiveReply 0 0 hi false s) = Return (Some response) /\
    IInteractiveResponseDto.errorDetails response =
      Some (InteractiveResponseErrorDetails.mk "Error from provider: boom" (Some true)).
Proof.
  intros s.
  destruct (progressive_failure_is_a_response s 0 0 hi false
              (InteractiveSessionProviderWrapper.mk 0 "extension"
                 (progressive_provider failing_session [InteractiveProgress.mk "par"]
                    (Throw (JsError.Error "boom"))))
              failing_session _ (JsError.Error "boom")
              eq_refl eq_refl eq_refl eq_refl eq_refl)
    as (response & Hr & He & _).
  exists response. split; [exact Hr | exact He].
Defined.

(** C5.  In the synchronous mode, when [provideResponse] returns a result,
    every response that [$provideInteractiveReply] returns has the
    follow-ups of the result (so [["a","b"]] for a result with these) and
    the timings [{firstProgress: 0, totalElapsed: 0}], and by then exactly
    one progress increment was forwarded to the proxy, with the content of
    the result, as the last call on the proxy.  A response is returned
    whenever the session has no [saveState] or its [saveState] returns. *)
Theorem sync_reply_forwards_once
    s handle sessionId request token entry realSession f res followups :
  _interactiveSessionProvider s !! handle = Some entry ->
  _interactiveSessions s !! sessionId = Some realSession ->
  InteractiveSessionProvider.provideResponse
    (InteractiveSessionProviderWrapper.provider entry) = Some f ->
  f (InteractiveRequest.mk realSession (IInteractiveRequestDto.message request)) token
    = Return (Some res) ->
  InteractiveResponse.followups res = followups ->
  let out := provideInteractiveReply handle sessionId request token s in
  (forall response,
      fst out = Return (Some response) ->
      IInteractiveResponseDto.followups response = followups /\
      IInteractiveResponseDto.timings response = Timings.mk 0 0 /\
      progress_of (proxy_during s (snd out)) =
        [(handle, sessionId, InteractiveResponse.content res)] /\
      last (proxy_during s (snd out)) =
        Some (acceptInteractiveResponseProgress_ handle sessionId
                (InteractiveResponse.content res))) /\
  (save_failure realSession = None -> exists response, fst out = Return (Some response)).
Proof.
  intros He Hs H1 Hf Hfollow out. subst out.
  rewrite (reply_resolved _ _ _ _ _ _ _ He Hs). cbv zeta. rewrite H1.
  destruct (reply_provideResponse_outcome handle sessionId realSession
              (InteractiveRequest.mk realSession (IInteractiveRequestDto.message request))
              token f s) as (_ & _ & H).
  rewrite Hf in H. cbv zeta in H.
  destruct (save_failure realSession) as [e|] eqn:Hsave.
  - destruct H as [Hr _]. rewrite Hr. split; [intros ? [=] | intros [=]].
  - destruct H as [Hr Hp]. rewrite Hr. split; [| eauto].
    intros response [= <-]. simpl. split; [done |]. split; [done |].
    unfold proxy_during. rewrite Hp, drop_own_length.
    split; [| by rewrite last_snoc].
    unfold saved_state.
    destruct (InteractiveSession.saveState realSession) as [saveState|]; [| done].
    by destruct (saveState tt).
Qed.

Lemma sync_reply_forwards_once_witness :
  let s := registered (ticking 1) (sync_provider plain_session) in
  let out := provideInteractiveReply 0 0 hi false s in
  exists response,
    fst out = Return (Some response) /\
    IInteractiveResponseDto.followups response = Some ["a"; "b"] /\
    IInteractiveResponseDto.timings response = Timings.mk 0 0 /\
    progress_of (proxy_during s (snd out)) = [(0, 0, "hello")].
Proof.
  intros s out.
  destruct (sync_reply_forwards_once s 0 0 hi false
              (InteractiveSessionProviderWrapper.mk 0 "extension" (sync_provider plain_session))
              plain_session _ answer (Some ["a"; "b"])
              eq_refl eq_refl eq_refl eq_refl eq_refl)
    as [Hall Hex].
  destruct (Hex eq_refl) as [response Hr].
  exists response. split; [exact Hr |].
  destruct (Hall response Hr) as (H1 & H2 & H3 & _). auto.
Defined.

(** C7.  From the initial state, whatever the calls, the [k]-th provider
    handle that is issued is [k] and the [k]-th session id that is issued is
    [k]: each counter starts from zero, goes up by one, and gives no value
    twice.  Of two preparations that return a descriptor, with any calls
    in between, for the same provider or not, the second has the greater
    id. *)
Theorem counters_issue_consecutive (from : JsValue -> JsValue) :
  (forall clock calls (k : nat) h,
      handles_of (fst (run from calls (initial clock))) !! k = Some h ->
      h = Z.of_nat k) /\
  (forall clock calls (k : nat) id,
      ids_of (fst (run from calls (initial clock))) !! k = Some id ->
      id = Z.of_nat k) /\
  (forall s handle1 initialState1 token1 dto1 s1 between
          handle2 initialState2 token2 dto2 s2,
      prepareInteractiveSession handle1 initialState1 token1 s
        = (Return (Some dto1), s1) ->
      prepareInteractiveSession handle2 initialState2 token2
          (snd (run from between s1))
        = (Return (Some dto2), s2) ->
      IInteractiveSessionDto.id dto1 < IInteractiveSessionDto.id dto2).
Proof.
  split; [| split].
  - intros clock calls k h H.
    destruct (run_issues_consecutive from calls (initial clock)) as [E _].
    rewrite E in H. apply lookup_seqZ in H as [-> _]. simpl. lia.
  - intros clock calls k id H.
    destruct (run_issues_consecutive from calls (initial clock)) as [_ E].
    rewrite E in H. apply lookup_seqZ in H as [-> _]. simpl. lia.
  - intros s handle1 initialState1 token1 dto1 s1 between
           handle2 initialState2 token2 dto2 s2 H1 H2.
    apply prepare_issues in H1 as (E1 & N1 & _).
    apply prepare_issues in H2 as (E2 & _).
    destruct (run_counters_le from between s1) as [_ Hle]. lia.
Qed.

Lemma counters_issue_consecutive_witness :
  let s := registered (ticking 1) (sync_provider plain_session) in
  let out1 := prepareInteractiveSession 0 JsNull false s in
  let out2 :=
    prepareInteractiveSession 0 JsNull false
      (snd (run next_kind [call_reply 0 0 hi false; call_release 1] (snd out1))) in
  fst out1 = Return (Some (descriptor 1 plain_session)) /\
  fst out2 = Return (Some (descriptor 2 plain_session)) /\
  IInteractiveSessionDto.id (descriptor 1 plain_session)
    < IInteractiveSessionDto.id (descriptor 2 plain_session).
Proof.
  intros s out1 out2.
  assert (H1 : out1 = (Return (Some (descriptor 1 plain_session)), snd out1))
    by (vm_compute; reflexivity).
  assert (H2 : out2 = (Return (Some (descriptor 2 plain_session)), snd out2))
    by (vm_compute; reflexivity).
  split; [by rewrite H1 |]. split; [by rewrite H2 |].
  exact (proj2 (proj2 (counters_issue_consecutive next_kind))
           s 0 JsNull false _ _ [call_reply 0 0 hi false; call_release 1]
           0 JsNull false _ _ H1 H2).
Defined.

(** C10.  When the provider resolves and its [prepareSession] throws or
    gives no session, [$prepareInteractiveSession] throws the same error,
    or returns [undefined]; the sessions, the providers and both counters
    are as before; so a later preparation that returns a descriptor right
    after it takes the id that was next before the failed one, the id that
    the same preparation would have taken without it. *)
Theorem failed_preparation_takes_no_id s handle initialState token entry :
  _interactiveSessionProvider s !! handle = Some entry ->
  let attempt :=
    InteractiveSessionProvider.prepareSession
      (InteractiveSessionProviderWrapper.provider entry) initialState token in
  attempt = Return None \/ (exists e, attempt = Throw e) ->
  let out := prepareInteractiveSession handle initialState token s in
  fst out = (if attempt is Throw e then Throw e else Return None) /\
  same_registry s (snd out) /\
  forall handle' initialState' token' dto s2,
    prepareInteractiveSession handle' initialState' token' (snd out)
      = (Return (Some dto), s2) ->
    IInteractiveSessionDto.id dto = _nextId s /\
    forall dto0 s0,
      prepareInteractiveSession handle' initialState' token' s
        = (Return (Some dto0), s0) ->
      IInteractiveSessionDto.id dto0 = IInteractiveSessionDto.id dto.
Proof.
  intros He attempt Hfail out.
  assert (Hout : fst out = (if attempt is Throw e then Throw e else Return None)).
  { subst out. rewrite (prepare_eq _ _ _ _ _ He). cbv zeta. fold attempt.
    destruct Hfail as [-> | [e ->]]; reflexivity. }
  assert (Hsame : same_registry s (snd out)).
  { apply prepare_nothing. fold out. rewrite Hout.
    by destruct Hfail as [-> | [e ->]]. }
  split; [exact Hout |]. split; [exact Hsame |].
  intros handle' initialState' token' dto s2 H.
  apply prepare_issues in H as (E & _).
  destruct Hsame as (_ & Hid & _). split; [congruence |].
  intros dto0 s0 H0. apply prepare_issues in H0 as (E0 & _). congruence.
Qed.

Lemma failed_preparation_takes_no_id_witness :
  let s := registered (ticking 1) picky_provider in
  let out := prepareInteractiveSession 0 (JsString "draft") false s in
  let next := prepareInteractiveSession 0 (JsNumber 1) false (snd out) in
  fst out = Throw (JsError.Error "cannot prepare") /\
  _interactiveSessions (snd out) = _interactiveSessions s /\
  fst next = Return (Some (descriptor 0 plain_session)) /\
  IInteractiveSessionDto.id (descriptor 0 plain_session) = _nextId s.
Proof.
  intros s out next.
  destruct (failed_preparation_takes_no_id s 0 (JsString "draft") false
              (InteractiveSessionProviderWrapper.mk 0 "extension" picky_provider)
              eq_refl (or_intror (ex_intro _ (JsError.Error "cannot prepare") eq_refl)))
    as (Hout & Hsame & Hnext).
  assert (H : next = (Return (Some (descriptor 0 plain_session)), snd next))
    by (vm_compute; reflexivity).
  split; [exact Hout |]. split; [apply Hsame |]. split; [by rewrite H |].
  exact (proj1 (Hnext 0 (JsNumber 1) false _ _ H)).
Defined.

(** C8, as the code has it.  In the progressive mode a response is always
    returned.  Its [firstProgress] is 0 when no increment was reported;
    otherwise it is the elapsed time that the stopwatch gave at the first
    report, the reading of the clock that follows the one of its creation
    less that one, whatever the later increments.  [totalElapsed] is the
    elapsed time of the next reading.  When the clock does not run
    backwards, [0 <= firstProgress <= totalElapsed]. *)
Theorem firstProgress_is_first_reading
    s handle sessionId request token entry realSession g :
  _interactiveSessionProvider s !! handle = Some entry ->
  _interactiveSessions s !! sessionId = Some realSession ->
  InteractiveSessionProvider.provideResponse
    (InteractiveSessionProviderWrapper.provider entry) = None ->
  InteractiveSessionProvider.provideResponseWithProgress
    (InteractiveSessionProviderWrapper.provider entry) = Some g ->
  let out := provideInteractiveReply handle sessionId request token s in
  let increments :=
    fst (g (InteractiveRequest.mk realSession (IInteractiveRequestDto.message request))
           token) in
  let n := clock_reads s in
  exists response,
    fst out = Return (Some response) /\
    let timings := IInteractiveResponseDto.timings response in
    (increments = [] ->
     Timings.firstProgress timings = 0 /\
     Timings.totalElapsed timings = Date_now s (S n) - Date_now s n) /\
    (increments <> [] ->
     Timings.firstProgress timings = Date_now s (S n) - Date_now s n /\
     Timings.totalElapsed timings = Date_now s (S (S n)) - Date_now s n) /\
    (clock_monotone s ->
     0 <= Timings.firstProgress timings <= Timings.totalElapsed timings).
Proof.
  intros He Hs H1 H2 out increments n. subst out.
  rewrite (reply_resolved _ _ _ _ _ _ _ He Hs). cbv zeta. rewrite H1, H2.
  destruct (reply_provideResponseWithProgress_outcome handle sessionId realSession
              (InteractiveRequest.mk realSession (IInteractiveRequestDto.message request))
              token g s) as (Hr & _).
  fold increments n in Hr.
  eexists. split; [exact Hr |]. simpl.
  destruct increments as [|p rest]; (split; [| split]); try done.
  - intros Hmono. pose proof (Hmono n (S n)). lia.
  - intros Hmono. pose proof (Hmono n (S n)). pose proof (Hmono (S n) (S (S n))). lia.
Qed.

Lemma firstProgress_is_first_reading_witness :
  let s := registered (ticking 5)
             (progressive_provider plain_session
                [InteractiveProgress.mk "par"; InteractiveProgress.mk "tial"]
                (Return None)) in
  exists response,
    fst (provideInteractiveReply 0 0 hi false s) = Return (Some response) /\
    Timings.firstProgress (IInteractiveResponseDto.timings response) = 5 /\
    Timings.totalElapsed (IInteractiveResponseDto.timings response) = 10 /\
    0 <= Timings.firstProgress (IInteractiveResponseDto.timings response)
      <= Timings.totalElapsed (IInteractiveResponseDto.timings response).
Proof.
  intros s.
  destruct (firstProgress_is_first_reading s 0 0 hi false
              (InteractiveSessionProviderWrapper.mk 0 "extension"
                 (progressive_provider plain_session
                    [InteractiveProgress.mk "par"; InteractiveProgress.mk "tial"]
                    (Return None)))
              plain_session _ eq_refl eq_refl eq_refl eq_refl)
    as (response & Hr & _ & Hsome & Hmono).
  exists response. split; [exact Hr |].
  destruct (Hsome ltac:(discriminate)) as [Hf Ht].
  split; [rewrite Hf; reflexivity |]. split; [rewrite Ht; reflexivity |].
  apply Hmono. intros i j Hij.
  change (Date_now s) with (ticking 5). unfold ticking. lia.
Defined.

(** C8, as the claim has it, fails: the provider reports one increment
    while the clock still reads what it read when the stopwatch was
    created; one increment is forwarded and [firstProgress] is 0, not
    positive. *)
Lemma firstProgress_zero_with_an_increment :
  let s := registered (ticking 0)
             (progressive_provider plain_session [InteractiveProgress.mk "par"]
                (Return (Some (InteractiveResponseForProgress.mk None None None)))) in
  let out := provideInteractiveReply 0 0 hi false s in
  exists response,
    fst out = Return (Some response) /\
    clock_monotone s /\
    progress_of (proxy_during s (snd out)) = [(0, 0, "par")] /\
    Timings.firstProgress (IInteractiveResponseDto.timings response) = 0 /\
    ~ 0 < Timings.firstProgress (IInteractiveResponseDto.timings response).
Proof.
  intros s out.
  exists (IInteractiveResponseDto.mk None None None (Timings.mk 0 0)).
  split; [reflexivity |]. split; [| split; [reflexivity | split; [reflexivity |]]].
  - intros i j Hij. change (Date_now s) with (ticking 0). unfold ticking. lia.
  - simpl. lia.
Qed.

(** C9.  When [$provideSlashCommands] returns a sequence, the provider
    and the session resolve, the provider has [provideSlashCommands], and
    it returned a sequence of the same length; the descriptor at each
    place has, for [kind], the conversion of the [kind] of the source
    descriptor at that place and, for every other property name, what the
    source descriptor has. *)
Theorem slashCommands_change_kind_only
    (from : JsValue -> JsValue) s handle sessionId token commands s' :
  provideSlashCommands from handle sessionId token s = (Return (Some commands), s') ->
  exists entry realSession f source,
    _interactiveSessionProvider s !! handle = Some entry /\
    _interactiveSessions s !! sessionId = Some realSession /\
    InteractiveSessionProvider.provideSlashCommands
      (InteractiveSessionProviderWrapper.provider entry) = Some f /\
    f realSession token = Return (Some source) /\
    length commands = length source /\
    forall (i : nat) (c : JsObject),
      source !! i = Some c ->
      exists c' : JsObject,
        commands !! i = Some c' /\
        c' !! "kind" = Some (from (get_prop c "kind")) /\
        forall k : string, k <> "kind" -> c' !! k = c !! k.
Proof.
  unfold provideSlashCommands. unfold_M.
  destruct (_interactiveSessionProvider s !! handle) as [entry|] eqn:He; [| done].
  destruct (_interactiveSessions s !! sessionId) as [realSession|] eqn:Hs; [| done].
  destruct (InteractiveSessionProvider.provideSlashCommands _) as [f|] eqn:Hf; [| done].
  destruct (f realSession token) as [[source|]|e] eqn:Hsrc; simpl; intros [= <- <-].
  exists entry, realSession, f, source.
  repeat (split; [done |]). split; [by rewrite length_fmap |].
  intros i c Hi. exists (convertSlashCommand from c).
  split; [by rewrite list_lookup_fmap, Hi |].
  unfold convertSlashCommand. split; [by rewrite lookup_insert_eq |].
  intros k Hk. by rewrite lookup_insert_ne.
Qed.

Lemma slashCommands_change_kind_only_witness :
  let s := registered (ticking 1) slash_provider in
  let out := provideSlashCommands next_kind 0 0 false s in
  exists commands c',
    fst out = Return (Some commands) /\
    commands !! 0%nat = Some c' /\
    c' !! "kind" = Some (JsNumber 3) /\
    c' !! "detail" = Some (JsString "Fix the code").
Proof.
  intros s out.
  pose (commands :=
    [ convertSlashCommand next_kind
        {[ "command" := JsString "fix"; "kind" := JsNumber 2;
           "detail" := JsString "Fix the code" ]};
      convertSlashCommand next_kind {[ "command" := JsString "explain" ]} ]).
  assert (H : out = (Return (Some commands), snd out)) by (vm_compute; reflexivity).
  destruct (slashCommands_change_kind_only next_kind s 0 0 false commands (snd out) H)
    as (entry & realSession & f & source & He & Hs & Hf & Hsrc & _ & Hall).
  assert (Hsource : source =
    [ {[ "command" := JsString "fix"; "kind" := JsNumber 2;
         "detail" := JsString "Fix the code" ]};
      {[ "command" := JsString "explain" ]} ]).
  { vm_compute in He, Hs. injection He as <-. injection Hs as <-.
    simpl in Hf. injection Hf as <-. by injection Hsrc as <-. }
  destruct (Hall 0%nat _ ltac:(by rewrite Hsource)) as (c' & Hc & Hkind & Hrest).
  exists commands, c'. split; [by rewrite H |]. split; [exact Hc |].
  split; [exact Hkind |]. by rewrite Hrest.
Defined.

(** * Further properties of the class *)

(** ** What a call leaves alone *)

Lemma quiet_refl s : quiet s s.
Proof. by unfold quiet. Qed.

Lemma quiet_trans s1 s2 s3 : quiet s1 s2 -> quiet s2 s3 -> quiet s1 s3.
Proof. unfold quiet. intros (?&?&?) (?&?&?). repeat split; congruence. Qed.

Ltac within_quiet :=
  within_with quiet_refl quiet_trans ltac:(by unfold quiet).

Lemma prepare_quiet handle initialState token :
  steps_within quiet (prepareInteractiveSession handle initialState token).
Proof. unfold prepareInteractiveSession, invoke. within_quiet. Qed.

Lemma resolve_quiet handle sessionId context token :
  steps_within quiet (resolveInteractiveRequest handle sessionId context token).
Proof. unfold resolveInteractiveRequest, invoke. within_quiet. Qed.

Lemma suggestions_quiet handle token :
  steps_within quiet (provideInitialSuggestions handle token).
Proof. unfold provideInitialSuggestions, invoke. within_quiet. Qed.

Lemma slashCommands_quiet from handle sessionId token :
  steps_within quiet (provideSlashCommands from handle sessionId token).
Proof. unfold provideSlashCommands, invoke. within_quiet. Qed.

Lemma release_quiet sessionId : steps_within quiet (releaseSession sessionId).
Proof. unfold releaseSession. within_quiet. Qed.

(** X1.  Which call touches what.  Only a registration and its disposal
    change the registry of providers, and only a preparation and a release
    change the store of sessions: in particular disposing of a provider
    keeps the sessions it prepared, and no reply, however it ends, adds or
    removes a provider or a session.  Preparing, resolving a request,
    asking for suggestions or for slash commands, and releasing send
    nothing to the main thread; nothing but a reply writes to the log. *)
Theorem effects_by_call (from : JsValue -> JsValue) c s :
  let s' := snd (exec from c s) in
  match c with
  | call_register _ _ _ | call_dispose _ => True
  | _ => _interactiveSessionProvider s' = _interactiveSessionProvider s
  end /\
  match c with
  | call_prepare _ _ _ | call_release _ => True
  | _ => _interactiveSessions s' = _interactiveSessions s
  end /\
  match c with
  | call_register _ _ _ | call_dispose _ | call_addRequest _
  | call_reply _ _ _ _ => True
  | _ => _proxy s' = _proxy s
  end /\
  match c with
  | call_reply _ _ _ _ => True
  | _ => logService s' = logService s
  end.
Proof.
  destruct c; simpl.
  - done.
  - done.
  - done.
  - pose proof (prepare_quiet handle initialState token s) as (?&?&_).
    destruct (_interactiveSessionProvider s !! handle) as [entry|] eqn:He.
    + rewrite (prepare_eq _ _ _ _ _ He) in *. cbv zeta in *.
      by destruct (InteractiveSessionProvider.prepareSession _ _ _) as [[?|]|?].
    + by rewrite prepare_unknown_handle.
  - pose proof (resolve_quiet handle sessionId context token s) as (?&?&_).
    pose proof (resolve_registry handle sessionId context token s) as (_&_&?&?).
    done.
  - pose proof (suggestions_quiet handle token s) as (?&?&_).
    pose proof (suggestions_registry handle token s) as (_&_&?&?).
    done.
  - pose proof (reply_registry handle sessionId request token s) as (_&_&?&?).
    done.
  - pose proof (slashCommands_quiet from handle sessionId token s) as (?&?&_).
    pose proof (slashCommands_registry from handle sessionId token s) as (_&_&?&?).
    done.
  - done.
Qed.

(** ** The registry and the store *)

(** X2.  A registration returns the handle that was next, and from then on
    that handle resolves to an entry with this handle, the extension and
    the provider; every other handle resolves as before; the sessions are
    untouched; the main thread is told once, with the handle, the id and a
    flag that is true exactly when the provider has
    [provideResponseWithProgress] (whether or not it also has
    [provideResponse]). *)
Theorem register_then_resolve extension id provider s :
  let out := registerInteractiveSessionProvider extension id provider s in
  let handle := _pool s in
  fst out = Return handle /\
  (forall h,
      _interactiveSessionProvider (snd out) !! h =
      if decide (h = handle)
      then Some (InteractiveSessionProviderWrapper.mk handle extension provider)
      else _interactiveSessionProvider s !! h) /\
  _interactiveSessions (snd out) = _interactiveSessions s /\
  _pool (snd out) = handle + 1 /\
  proxy_during s (snd out) =
    [registerInteractiveSessionProvider_ handle id
       (bool_decide
          (is_Some (InteractiveSessionProvider.provideResponseWithProgress provider)))].
Proof.
  intros out handle. subst out handle. rewrite register_eq. simpl.
  split; [done |]. split; [| split; [done | split; [done |]]].
  - intros h. case_decide as Hh.
    + subst h. by rewrite lookup_insert_eq.
    + by rewrite lookup_insert_ne.
  - unfold proxy_during. simpl. rewrite drop_own_length.
    by destruct (InteractiveSessionProvider.provideResponseWithProgress provider).
Qed.

(** X3.  In a state that calls reach from the initial one, registering a
    provider and disposing of the registration gives back the registry as
    it was; the handle no longer resolves and is not issued again (the
    counter stays one further); the main thread is told of the
    registration and then of the removal. *)
Theorem register_dispose_round_trip
    (from : JsValue -> JsValue) clock calls extension id provider :
  let s := snd (run from calls (initial clock)) in
  let s1 := snd (registerInteractiveSessionProvider extension id provider s) in
  let s2 := snd (dispose_registration (_pool s) s1) in
  _interactiveSessionProvider s2 = _interactiveSessionProvider s /\
  _interactiveSessionProvider s2 !! _pool s = None /\
  _interactiveSessions s2 = _interactiveSessions s /\
  _pool s2 = _pool s + 1 /\
  exists flag,
    proxy_during s s2 =
      [registerInteractiveSessionProvider_ (_pool s) id flag;
       unregisterInteractiveSessionProvider_ (_pool s)].
Proof.
  intros s s1 s2.
  destruct (run_issued_by_counters from calls (initial clock)
              (initial_issued_by_counters clock)) as [Hp _]; [done | done |].
  fold s in Hp.
  assert (Hfresh : _interactiveSessionProvider s !! _pool s = None).
  { destruct (_interactiveSessionProvider s !! _pool s) eqn:E; [| done].
    specialize (Hp _ (ex_intro _ _ E)). lia. }
  subst s2 s1. rewrite register_eq. unfold dispose_registration. unfold_M. simpl.
  split; [by apply delete_insert_id |]. split; [apply lookup_delete_eq |].
  split; [done |]. split; [done |].
  eexists. unfold proxy_during. simpl.
  rewrite <- app_assoc, drop_own_length. reflexivity.
Qed.

(** X4.  A preparation that returns a descriptor called [prepareSession]
    of the provider that the handle resolves to, once, and got a session
    from it; the descriptor has the id that was next and the names and
    icons of the requester and the responder of that session; the session
    is stored under that id and every other id resolves as before; nothing
    is sent to the main thread. *)
Theorem prepare_stores_session s handle initialState token dto s' :
  prepareInteractiveSession handle initialState token s = (Return (Some dto), s') ->
  exists entry session,
    _interactiveSessionProvider s !! handle = Some entry /\
    InteractiveSessionProvider.prepareSession
      (InteractiveSessionProviderWrapper.provider entry) initialState token
      = Return (Some session) /\
    dto = IInteractiveSessionDto.mk (_nextId s)
            (InteractiveSessionParticipantInformation.name
               <$> InteractiveSession.requester session)
            (InteractiveSession.requester session
               ≫= InteractiveSessionParticipantInformation.icon)
            (InteractiveSessionParticipantInformation.name
               <$> InteractiveSession.responder session)
            (InteractiveSession.responder session
               ≫= InteractiveSessionParticipantInformation.icon) /\
    (forall id,
        _interactiveSessions s' !! id =
        if decide (id = _nextId s) then Some session
        else _interactiveSessions s !! id) /\
    calls_during s s' = [cap_prepareSession] /\
    proxy_during s s' = [].
Proof.
  destruct (_interactiveSessionProvider s !! handle) as [entry|] eqn:He.
  - rewrite (prepare_eq _ _ _ _ _ He). cbv zeta.
    destruct (InteractiveSessionProvider.prepareSession _ _ _) as [[session|]|e] eqn:Hp;
      intros [= <- <-].
    exists entry, session. split; [done |]. split; [done |]. split; [done |].
    simpl. split; [| split].
    + intros id. case_decide as Hid.
      * subst id. by rewrite lookup_insert_eq.
      * by rewrite lookup_insert_ne.
    + unfold calls_during. simpl. by rewrite drop_own_length.
    + unfold proxy_during. simpl. by rewrite drop_all.
  - rewrite prepare_unknown_handle by done. intros [=].
Qed.

Lemma prepare_stores_session_witness :
  let s := registered (ticking 1) helper_provider in
  let out := prepareInteractiveSession 0 JsNull false s in
  fst out =
    Return (Some (IInteractiveSessionDto.mk 1 (Some "user") (Some "user.png")
                    (Some "bot") None)) /\
  is_Some (_interactiveSessions (snd out) !! 1).
Proof.
  intros s out.
  assert (H : out =
    (Return (Some (IInteractiveSessionDto.mk 1 (Some "user") (Some "user.png")
                     (Some "bot") None)), snd out)) by (vm_compute; reflexivity).
  destruct (prepare_stores_session s 0 JsNull false _ _ H)
    as (entry & session & _ & _ & _ & Hstore & _).
  split; [by rewrite H |]. rewrite (Hstore 1).
  change (_nextId s) with 1. rewrite decide_True by done. eauto.
Defined.

(** X5.  In a state that calls reach from the initial one, a preparation
    that returns a descriptor followed by the release of its id gives back
    the store of sessions as it was; the id is not issued again (the
    counter stays one further). *)
Theorem prepare_release_round_trip
    (from : JsValue -> JsValue) clock calls handle initialState token dto s' :
  let s := snd (run from calls (initial clock)) in
  prepareInteractiveSession handle initialState token s = (Return (Some dto), s') ->
  let s'' := snd (releaseSession (IInteractiveSessionDto.id dto) s') in
  _interactiveSessions s'' = _interactiveSessions s /\
  _interactiveSessions s'' !! IInteractiveSessionDto.id dto = None /\
  _interactiveSessionProvider s'' = _interactiveSessionProvider s /\
  _nextId s'' = _nextId s + 1.
Proof.
  intros s H s''.
  destruct (run_issued_by_counters from calls (initial clock)
              (initial_issued_by_counters clock)) as [_ Hs]; [done | done |].
  fold s in Hs.
  assert (Hfresh : _interactiveSessions s !! _nextId s = None).
  { destruct (_interactiveSessions s !! _nextId s) eqn:E; [| done].
    specialize (Hs _ (ex_intro _ _ E)). lia. }
  apply prepare_issues in H as (Hid & Hn & _ & Hp & session & Hstore).
  subst s''. unfold releaseSession. unfold_M. simpl.
  rewrite Hid, Hstore. split; [by apply delete_insert_id |].
  split; [apply lookup_delete_eq |]. done.
Qed.

Lemma prepare_release_round_trip_witness :
  let s := registered (ticking 1) helper_provider in
  let out := prepareInteractiveSession 0 JsNull false s in
  _interactiveSessions (snd (releaseSession 1 (snd out))) = _interactiveSessions s.
Proof.
  intros s out.
  assert (H : out = (Return (Some (descriptor 1 saving_session)), snd out))
    by (vm_compute; reflexivity).
  exact (proj1 (prepare_release_round_trip next_kind (ticking 1)
                  [call_register "extension" "provider" helper_provider;
                   call_prepare 0 JsUndefined false]
                  0 JsNull false _ _ H)).
Defined.

(** X6.  A release removes the session of its id and nothing else: every
    other id resolves as before, the providers and both counters are as
    before, and nothing is sent to the main thread or logged.  Releasing
    an id that does not resolve leaves the store as it is, so a second
    release of an id changes nothing more. *)
Theorem release_is_local s sessionId :
  let s' := snd (releaseSession sessionId s) in
  (forall id,
      _interactiveSessions s' !! id =
      if decide (id = sessionId) then None else _interactiveSessions s !! id) /\
  _interactiveSessionProvider s' = _interactiveSessionProvider s /\
  _pool s' = _pool s /\ _nextId s' = _nextId s /\
  quiet s s' /\
  (_interactiveSessions s !! sessionId = None ->
   _interactiveSessions s' = _interactiveSessions s) /\
  _interactiveSessions (snd (releaseSession sessionId s')) = _interactiveSessions s'.
Proof.
  intros s'. subst s'. unfold releaseSession. unfold_M. simpl.
  split; [| repeat split].
  - intros id. case_decide as Hid.
    + subst id. apply lookup_delete_eq.
    + by rewrite lookup_delete_ne.
  - intros H. by apply delete_id.
  - apply delete_id, lookup_delete_eq.
Qed.

Lemma release_is_local_witness :
  let s := registered (ticking 1) helper_provider in
  _interactiveSessions (snd (releaseSession 5 s)) = _interactiveSessions s.
Proof.
  intros s.
  exact (proj1 (proj2 (proj2 (proj2 (proj2 (proj2 (release_is_local s 5)))))) eq_refl).
Defined.

(** A call keeps what an issued handle or id resolves to, or makes it
    unresolved. *)
Lemma exec_keeps_or_drops from c s :
  (forall h, h < _pool s ->
     _interactiveSessionProvider (snd (exec from c s)) !! h
       = _interactiveSessionProvider s !! h \/
     _interactiveSessionProvider (snd (exec from c s)) !! h = None) /\
  (forall id, id < _nextId s ->
     _interactiveSessions (snd (exec from c s)) !! id
       = _interactiveSessions s !! id \/
     _interactiveSessions (snd (exec from c s)) !! id = None).
Proof.
  assert (Hsame : forall s', same_registry s s' ->
    (forall h, h < _pool s ->
       _interactiveSessionProvider s' !! h = _interactiveSessionProvider s !! h \/
       _interactiveSessionProvider s' !! h = None) /\
    (forall id, id < _nextId s ->
       _interactiveSessions s' !! id = _interactiveSessions s !! id \/
       _interactiveSessions s' !! id = None)).
  { intros s' (_&_&E3&E4). rewrite E3, E4. auto. }
  destruct c; simpl.
  - split; simpl; [| auto]. intros h Hlt. left. by rewrite lookup_insert_ne by lia.
  - split; simpl; [| auto]. intros h Hlt.
    destruct (decide (h = handle)) as [->|Hne].
    + right. apply lookup_delete_eq.
    + left. by rewrite lookup_delete_ne.
  - by apply Hsame.
  - destruct (prepareInteractiveSession handle initialState token s)
      as [[[dto|]|e] s'] eqn:E; simpl.
    + apply prepare_issues in E as (_ & _ & _ & E3 & session & E4).
      rewrite E3, E4. split; [auto |].
      intros id Hlt. left. by rewrite lookup_insert_ne by lia.
    + apply Hsame. pose proof (prepare_nothing s handle initialState token) as H.
      rewrite E in H. by apply H.
    + apply Hsame. pose proof (prepare_nothing s handle initialState token) as H.
      rewrite E in H. by apply H.
  - apply Hsame, resolve_registry.
  - apply Hsame, suggestions_registry.
  - apply Hsame, reply_registry.
  - apply Hsame, slashCommands_registry.
  - split; simpl; [auto |]. intros id Hlt.
    destruct (decide (id = sessionId)) as [->|Hne].
    + right. apply lookup_delete_eq.
    + left. by rewrite lookup_delete_ne.
Qed.

Lemma run_keeps_or_drops from calls :
  forall s,
    (forall h, h < _pool s ->
       _interactiveSessionProvider (snd (run from calls s)) !! h
         = _interactiveSessionProvider s !! h \/
       _interactiveSessionProvider (snd (run from calls s)) !! h = None) /\
    (forall id, id < _nextId s ->
       _interactiveSessions (snd (run from calls s)) !! id
         = _interactiveSessions s !! id \/
       _interactiveSessions (snd (run from calls s)) !! id = None).
Proof.
  induction calls as [|c rest IH]; intros s; [simpl; auto |].
  rewrite run_cons. simpl.
  destruct (exec_keeps_or_drops from c s) as [Hp Hs].
  destruct (IH (snd (exec from c s))) as [IHp IHs].
  pose proof (exec_counters from c s) as Hc.
  split.
  - intros h Hlt.
    destruct (IHp h) as [E|E]; [destruct (fst (exec from c s)); lia | | by right].
    rewrite E. by apply Hp.
  - intros id Hlt.
    destruct (IHs id) as [E|E]; [destruct (fst (exec from c s)); lia | | by right].
    rewrite E. by apply Hs.
Qed.

(** X7.  A handle or an id is never given a second meaning.  In a state
    that calls reach from the initial one, a handle that resolves to an
    entry resolves, after any further calls, to the same entry or to
    nothing, and an id that resolves to a session resolves to the same
    session or to nothing: no registration and no preparation stores under
    a handle or an id that is in use. *)
Theorem no_rebinding (from : JsValue -> JsValue) clock calls later :
  let s := snd (run from calls (initial clock)) in
  let s' := snd (run from later s) in
  (forall h entry,
      _interactiveSessionProvider s !! h = Some entry ->
      _interactiveSessionProvider s' !! h = Some entry \/
      _interactiveSessionProvider s' !! h = None) /\
  (forall id session,
      _interactiveSessions s !! id = Some session ->
      _interactiveSessions s' !! id = Some session \/
      _interactiveSessions s' !! id = None).
Proof.
  intros s s'.
  destruct (run_issued_by_counters from calls (initial clock)
              (initial_issued_by_counters clock)) as [Hp Hs]; [done | done |].
  fold s in Hp, Hs.
  destruct (run_keeps_or_drops from later s) as [Kp Ks]. fold s' in Kp, Ks.
  split.
  - intros h entry E. destruct (Kp h) as [K|K]; [| left; congruence | by right].
    specialize (Hp h (ex_intro _ _ E)). lia.
  - intros id session E. destruct (Ks id) as [K|K]; [| left; congruence | by right].
    specialize (Hs id (ex_intro _ _ E)). lia.
Qed.

Lemma no_rebinding_witness :
  let s := registered (ticking 1) helper_provider in
  let s' := snd (run next_kind
                   [call_prepare 0 JsNull false;
                    call_register "other" "second" (sync_provider plain_session);
                    call_prepare 1 JsNull false] s) in
  _interactiveSessions s' !! 0 = Some saving_session \/
  _interactiveSessions s' !! 0 = None.
Proof.
  intros s s'.
  exact (proj2 (no_rebinding next_kind (ticking 1)
                  [call_register "extension" "provider" helper_provider;
                   call_prepare 0 JsUndefined false]
                  [call_prepare 0 JsNull false;
                   call_register "other" "second" (sync_provider plain_session);
                   call_prepare 1 JsNull false])
           0 saving_session eq_refl).
Defined.

Lemma exec_keyed_by_handle from c s :
  keyed_by_handle s -> keyed_by_handle (snd (exec from c s)).
Proof.
  intros Hk.
  assert (Hsame : forall s', same_registry s s' -> keyed_by_handle s').
  { intros s' (_&_&E3&_). unfold keyed_by_handle. by rewrite E3. }
  destruct c; simpl.
  - intros h w. simpl.
    destruct (decide (h = _pool s)) as [->|Hne].
    + rewrite lookup_insert_eq. by intros [= <-].
    + rewrite lookup_insert_ne by done. apply Hk.
  - intros h w. simpl. intros [_ Hw]%lookup_delete_Some. by apply Hk.
  - by apply Hsame.
  - destruct (prepareInteractiveSession handle initialState token s)
      as [[[dto|]|e] s'] eqn:E; simpl.
    + apply prepare_issues in E as (_ & _ & _ & E3 & _).
      unfold keyed_by_handle. by rewrite E3.
    + apply Hsame. pose proof (prepare_nothing s handle initialState token) as H.
      rewrite E in H. by apply H.
    + apply Hsame. pose proof (prepare_nothing s handle initialState token) as H.
      rewrite E in H. by apply H.
  - apply Hsame, resolve_registry.
  - apply Hsame, suggestions_registry.
  - apply Hsame, reply_registry.
  - apply Hsame, slashCommands_registry.
  - exact Hk.
Qed.

(** X8.  In every state that calls reach from the initial one, each
    registered handle is at least 0, below the handle counter, and is the
    [handle] of the entry it resolves to; each stored session id is at
    least 0 and below the id counter. *)
Theorem registry_invariant (from : JsValue -> JsValue) clock calls :
  let s := snd (run from calls (initial clock)) in
  (forall h entry,
      _interactiveSessionProvider s !! h = Some entry ->
      InteractiveSessionProviderWrapper.handle entry = h /\ 0 <= h < _pool s) /\
  (forall id session,
      _interactiveSessions s !! id = Some session -> 0 <= id < _nextId s).
Proof.
  intros s.
  destruct (run_issued_by_counters from calls (initial clock)
              (initial_issued_by_counters clock)) as [Hp Hs]; [done | done |].
  fold s in Hp, Hs.
  assert (Hk : forall calls s0, keyed_by_handle s0 ->
                                keyed_by_handle (snd (run from calls s0))).
  { clear. induction calls as [|c rest IH]; intros s0 H0; [done |].
    rewrite run_cons. simpl. by apply IH, exec_keyed_by_handle. }
  split.
  - intros h entry E. split; [| apply Hp; eauto].
    eapply (Hk calls (initial clock)); [| exact E].
    intros h' w' E'. simpl in E'. by rewrite lookup_empty in E'.
  - intros id session E. apply Hs. eauto.
Qed.

Lemma registry_invariant_witness :
  let s := registered (ticking 1) helper_provider in
  0 <= 0 < _nextId s.
Proof.
  intros s.
  exact (proj2 (registry_invariant next_kind (ticking 1)
                  [call_register "extension" "provider" helper_provider;
                   call_prepare 0 JsUndefined false])
           0 saving_session eq_refl).
Defined.

(** ** Replies *)


Lemma states_of_progress_calls h i increments :
  states_of (progress_calls h i increments) = [].
Proof. induction increments as [|p rest IH]; simpl; done. Qed.


Lemma states_of_saved_state i realSession :
  states_of (saved_state i realSession) =
  match InteractiveSession.saveState realSession with
  | Some saveState => if saveState tt is Return newState then [(i, newState)] else []
  | None => []
  end.
Proof.
  unfold saved_state.
  destruct (InteractiveSession.saveState realSession) as [saveState|]; [| done].
  by destruct (saveState tt).
Qed.



(** X10.  In the progressive mode, a result that the provider returns is
    used as it is: the response has its follow-ups, its commands as
    command follow-ups and its error details, also when these are the
    provider's own; no error is logged for it. *)
Theorem progressive_result_as_is
    s handle sessionId request token entry realSession g result :
  _interactiveSessionProvider s !! handle = Some entry ->
  _interactiveSessions s !! sessionId = Some realSession ->
  InteractiveSessionProvider.provideResponse
    (InteractiveSessionProviderWrapper.provider entry) = None ->
  InteractiveSessionProvider.provideResponseWithProgress
    (InteractiveSessionProviderWrapper.provider entry) = Some g ->
  snd (g (InteractiveRequest.mk realSession (IInteractiveRequestDto.message request))
         token) = Return (Some result) ->
  let out := provideInteractiveReply handle sessionId request token s in
  (exists timings,
      fst out =
        Return (Some (IInteractiveResponseDto.mk
                        (InteractiveResponseForProgress.followups result)
                        (InteractiveResponseForProgress.commands result)
                        (InteractiveResponseForProgress.errorDetails result)
                        timings))) /\
  forall e, log_error e ∉ log_during s (snd out).
Proof.
  intros He Hs H1 H2 Hres out. subst out.
  rewrite (reply_resolved _ _ _ _ _ _ _ He Hs). cbv zeta. rewrite H1, H2.
  destruct (reply_provideResponseWithProgress_outcome handle sessionId realSession
              (InteractiveRequest.mk realSession (IInteractiveRequestDto.message request))
              token g s) as (Hr & _ & Hl & _).
  rewrite Hres in Hr, Hl. simpl in Hr, Hl.
  split; [eexists; exact Hr |].
  intros e. unfold log_during. rewrite Hl, drop_own_length.
  destruct (save_failure realSession).
  - intros H%list_elem_of_singleton. discriminate.
  - apply not_elem_of_nil.
Qed.

Lemma progressive_result_as_is_witness :
  let result :=
    InteractiveResponseForProgress.mk (Some ["more"]) None
      (Some (InteractiveResponseErrorDetails.mk "quota exceeded" None)) in
  let s := registered (ticking 1)
             (progressive_provider saving_session [] (Return (Some result))) in
  exists timings,
    fst (provideInteractiveReply 0 0 hi false s) =
      Return (Some (IInteractiveResponseDto.mk (Some ["more"]) None
                      (Some (InteractiveResponseErrorDetails.mk "quota exceeded" None))
                      timings)).
Proof.
  intros result s.
  exact (proj1 (progressive_result_as_is s 0 0 hi false
                  (InteractiveSessionProviderWrapper.mk 0 "extension"
                     (progressive_provider saving_session [] (Return (Some result))))
                  saving_session _ result eq_refl eq_refl eq_refl eq_refl eq_refl)).
Defined.

(** X11.  In the progressive mode, when the provider returns no result,
    the response has no follow-ups and no command follow-ups, and error
    details with the message "Provider returned null response" and no
    [responseIsIncomplete]; this is not logged as an error. *)
Theorem progressive_null_result
    s handle sessionId request token entry realSession g :
  _interactiveSessionProvider s !! handle = Some entry ->
  _interactiveSessions s !! sessionId = Some realSession ->
  InteractiveSessionProvider.provideResponse
    (InteractiveSessionProviderWrapper.provider entry) = None ->
  InteractiveSessionProvider.provideResponseWithProgress
    (InteractiveSessionProviderWrapper.provider entry) = Some g ->
  snd (g (InteractiveRequest.mk realSession (IInteractiveRequestDto.message request))
         token) = Return None ->
  let out := provideInteractiveReply handle sessionId request token s in
  (exists timings,
      fst out =
        Return (Some (IInteractiveResponseDto.mk None None
                        (Some (InteractiveResponseErrorDetails.mk
                                 "Provider returned null response" None))
                        timings))) /\
  forall e, log_error e ∉ log_during s (snd out).
Proof.
  intros He Hs H1 H2 Hres out. subst out.
  rewrite (reply_resolved _ _ _ _ _ _ _ He Hs). cbv zeta. rewrite H1, H2.
  destruct (reply_provideResponseWithProgress_outcome handle sessionId realSession
              (InteractiveRequest.mk realSession (IInteractiveRequestDto.message request))
              token g s) as (Hr & _ & Hl & _).
  rewrite Hres in Hr, Hl. simpl in Hr, Hl.
  split; [eexists; exact Hr |].
  intros e. unfold log_during. rewrite Hl, drop_own_length.
  destruct (save_failure realSession).
  - intros H%list_elem_of_singleton. discriminate.
  - apply not_elem_of_nil.
Qed.

Lemma progressive_null_result_witness :
  let s := registered (ticking 1) (progressive_provider plain_session [] (Return None)) in
  exists timings,
    fst (provideInteractiveReply 0 0 hi false s) =
      Return (Some (IInteractiveResponseDto.mk None None
                      (Some (InteractiveResponseErrorDetails.mk
                               "Provider returned null response" None))
                      timings)).
Proof.
  intros s.
  exact (proj1 (progressive_null_result s 0 0 hi false
                  (InteractiveSessionProviderWrapper.mk 0 "extension"
                     (progressive_provider plain_session [] (Return None)))
                  plain_session _ eq_refl eq_refl eq_refl eq_refl eq_refl)).
Defined.

(** X12.  In the synchronous mode an error that [provideResponse] throws
    is what [$provideInteractiveReply] throws: it is not logged, the state
    of the session is not saved (nothing at all is sent to the main
    thread), and the clock is not read. *)
Theorem sync_provider_failure_propagates
    s handle sessionId request token entry realSession f e :
  _interactiveSessionProvider s !! handle = Some entry ->
  _interactiveSessions s !! sessionId = Some realSession ->
  InteractiveSessionProvider.provideResponse
    (InteractiveSessionProviderWrapper.provider entry) = Some f ->
  f (InteractiveRequest.mk realSession (IInteractiveRequestDto.message request)) token
    = Throw e ->
  let out := provideInteractiveReply handle sessionId request token s in
  fst out = Throw e /\
  _proxy (snd out) = _proxy s /\
  logService (snd out) = logService s /\
  calls_during s (snd out) = [cap_provideResponse].
Proof.
  intros He Hs H1 Hf out. subst out.
  rewrite (reply_resolved _ _ _ _ _ _ _ He Hs). cbv zeta. rewrite H1.
  destruct (reply_provideResponse_outcome handle sessionId realSession
              (InteractiveRequest.mk realSession (IInteractiveRequestDto.message request))
              token f s) as (Hi & Hl & H).
  rewrite Hf in H. destruct H as [Hr Hp].
  repeat split; try done.
  unfold calls_during. by rewrite Hi, drop_own_length.
Qed.

Lemma sync_provider_failure_propagates_witness :
  let provider :=
    InteractiveSessionProvider.mk
      (fun _ _ => Return (Some saving_session)) None None
      (Some (fun _ _ => Throw (JsError.Error "model offline"))) None None in
  let s := registered (ticking 1) provider in
  let out := provideInteractiveReply 0 0 hi false s in
  fst out = Throw (JsError.Error "model offline") /\ _proxy (snd out) = _proxy s.
Proof.
  intros provider s out.
  destruct (sync_provider_failure_propagates s 0 0 hi false
              (InteractiveSessionProviderWrapper.mk 0 "extension" provider)
              saving_session _ (JsError.Error "model offline")
              eq_refl eq_refl eq_refl eq_refl) as (Hr & Hp & _).
  split; [exact Hr | exact Hp].
Defined.

(** X13.  In the synchronous mode, when [provideResponse] returns no
    result and [saveState] of the session returns, the state is saved all
    the same: the only call on the main thread is the notification of the
    new state for this session; no progress increment is forwarded, and
    the method returns [undefined]. *)
Theorem sync_no_result_saves_state
    s handle sessionId request token entry realSession f saveState newState :
  _interactiveSessionProvider s !! handle = Some entry ->
  _interactiveSessions s !! sessionId = Some realSession ->
  InteractiveSessionProvider.provideResponse
    (InteractiveSessionProviderWrapper.provider entry) = Some f ->
  f (InteractiveRequest.mk realSession (IInteractiveRequestDto.message request)) token
    = Return None ->
  InteractiveSession.saveState realSession = Some saveState ->
  saveState tt = Return newState ->
  let out := provideInteractiveReply handle sessionId request token s in
  fst out = Return None /\
  proxy_during s (snd out) = [acceptInteractiveSessionState_ sessionId newState].
Proof.
  intros He Hs H1 Hf Hsave Hnew out. subst out.
  rewrite (reply_resolved _ _ _ _ _ _ _ He Hs). cbv zeta. rewrite H1.
  destruct (reply_provideResponse_outcome handle sessionId realSession
              (InteractiveRequest.mk realSession (IInteractiveRequestDto.message request))
              token f s) as (_ & _ & H).
  rewrite Hf in H. unfold save_failure, saved_state in H.
  rewrite Hsave, Hnew in H. destruct H as [Hr Hp].
  split; [exact Hr |]. unfold proxy_during. by rewrite Hp, drop_own_length.
Qed.

Lemma sync_no_result_saves_state_witness :
  let provider :=
    InteractiveSessionProvider.mk
      (fun _ _ => Return (Some saving_session)) None None
      (Some (fun _ _ => Return None)) None None in
  let s := registered (ticking 1) provider in
  let out := provideInteractiveReply 0 0 hi false s in
  fst out = Return None /\
  proxy_during s (snd out) = [acceptInteractiveSessionState_ 0 (JsString "saved")].
Proof.
  intros provider s out.
  exact (sync_no_result_saves_state s 0 0 hi false
           (InteractiveSessionProviderWrapper.mk 0 "extension" provider)
           saving_session _ _ (JsString "saved")
           eq_refl eq_refl eq_refl eq_refl eq_refl eq_refl).
Defined.

(** X14.  In the progressive mode the state of the session is saved after
    the provider has settled, however it settled, also when it threw: when
    [saveState] returns, the main thread is notified of the new state for
    this session exactly once; when the session has no [saveState], or
    [saveState] throws, it is not notified of any state. *)
Theorem progressive_saves_state
    s handle sessionId request token entry realSession g :
  _interactiveSessionProvider s !! handle = Some entry ->
  _interactiveSessions s !! sessionId = Some realSession ->
  InteractiveSessionProvider.provideResponse
    (InteractiveSessionProviderWrapper.provider entry) = None ->
  InteractiveSessionProvider.provideResponseWithProgress
    (InteractiveSessionProviderWrapper.provider entry) = Some g ->
  let out := provideInteractiveReply handle sessionId request token s in
  states_of (proxy_during s (snd out)) =
  match InteractiveSession.saveState realSession with
  | Some saveState =>
      if saveState tt is Return newState then [(sessionId, newState)] else []
  | None => []
  end.
Proof.
  intros He Hs H1 H2 out. subst out.
  rewrite (reply_resolved _ _ _ _ _ _ _ He Hs). cbv zeta. rewrite H1, H2.
  destruct (reply_provideResponseWithProgress_outcome handle sessionId realSession
              (InteractiveRequest.mk realSession (IInteractiveRequestDto.message request))
              token g s) as (_ & _ & _ & Hp).
  unfold proxy_during. rewrite Hp, drop_own_length.
  unfold states_of. rewrite omap_app.
  fold (states_of (progress_calls handle sessionId
          (fst (g (InteractiveRequest.mk realSession
                     (IInteractiveRequestDto.message request)) token)))).
  fold (states_of (saved_state sessionId realSession)).
  by rewrite states_of_progress_calls, states_of_saved_state.
Qed.

Lemma progressive_saves_state_witness :
  let s := registered (ticking 1)
             (progressive_provider saving_session [InteractiveProgress.mk "par"]
                (Throw (JsError.Error "boom"))) in
  states_of (proxy_during s (snd (provideInteractiveReply 0 0 hi false s))) =
  [(0, JsString "saved")].
Proof.
  intros s.
  exact (progressive_saves_state s 0 0 hi false
           (InteractiveSessionProviderWrapper.mk 0 "extension"
              (progressive_provider saving_session [InteractiveProgress.mk "par"]
                 (Throw (JsError.Error "boom"))))
           saving_session _ eq_refl eq_refl eq_refl eq_refl).
Defined.

(** X15.  What a reply logs.  A reply logs nothing unless the provider and
    the session resolve and the provider is served in the progressive
    mode; then it logs at most an error, the one that
    [provideResponseWithProgress] threw, followed by at most a warning,
    the one that [saveState] threw, and nothing else. *)
Theorem reply_logging s handle sessionId request token :
  let out := provideInteractiveReply handle sessionId request token s in
  log_during s (snd out) = [] \/
  exists entry realSession g,
    _interactiveSessionProvider s !! handle = Some entry /\
    _interactiveSessions s !! sessionId = Some realSession /\
    InteractiveSessionProvider.provideResponse
      (InteractiveSessionProviderWrapper.provider entry) = None /\
    InteractiveSessionProvider.provideResponseWithProgress
      (InteractiveSessionProviderWrapper.provider entry) = Some g /\
    log_during s (snd out) =
      (if snd (g (InteractiveRequest.mk realSession
                    (IInteractiveRequestDto.message request)) token) is Throw e
       then [log_error e] else []) ++
      match InteractiveSession.saveState realSession with
      | Some saveState => if saveState tt is Throw e then [log_warn e] else []
      | None => []
      end.
Proof.
  intros out. subst out. unfold log_during.
  destruct (_interactiveSessionProvider s !! handle) as [entry|] eqn:He;
    [| left; by rewrite reply_unknown_handle, drop_all].
  destruct (_interactiveSessions s !! sessionId) as [realSession|] eqn:Hs;
    [| left; by rewrite reply_unknown_session, drop_all].
  rewrite (reply_resolved _ _ _ _ _ _ _ He Hs). cbv zeta.
  destruct (InteractiveSessionProvider.provideResponse _) as [f|] eqn:H1.
  - left.
    destruct (reply_provideResponse_outcome handle sessionId realSession
                (InteractiveRequest.mk realSession (IInteractiveRequestDto.message request))
                token f s) as (_ & Hl & _).
    by rewrite Hl, drop_all.
  - destruct (InteractiveSessionProvider.provideResponseWithProgress _) as [g|] eqn:H2.
    + right. exists entry, realSession, g. repeat (split; [done |]).
      destruct (reply_provideResponseWithProgress_outcome handle sessionId realSession
                  (InteractiveRequest.mk realSession
                     (IInteractiveRequestDto.message request))
                  token g s) as (_ & _ & Hl & _).
      rewrite Hl, drop_own_length. f_equal. unfold save_failure.
      destruct (InteractiveSession.saveState realSession) as [saveState|]; [| done].
      by destruct (saveState tt).
    + left. simpl. by rewrite drop_all.
Qed.

(** ** The pass-through methods *)

(** X16.  A capability that the provider does not have is not an error:
    when the provider resolves (and, for the two methods that take one,
    the session) but has no [resolveRequest], no
    [provideInitialSuggestions] or no [provideSlashCommands], the method
    for it returns [undefined], calls nothing and changes nothing. *)
Theorem missing_capability_returns_undefined
    (from : JsValue -> JsValue) s handle sessionId context token entry realSession :
  _interactiveSessionProvider s !! handle = Some entry ->
  _interactiveSessions s !! sessionId = Some realSession ->
  let provider := InteractiveSessionProviderWrapper.provider entry in
  (InteractiveSessionProvider.resolveRequest provider = None ->
   resolveInteractiveRequest handle sessionId context token s = (Return None, s)) /\
  (InteractiveSessionProvider.provideInitialSuggestions provider = None ->
   provideInitialSuggestions handle token s = (Return None, s)) /\
  (InteractiveSessionProvider.provideSlashCommands provider = None ->
   provideSlashCommands from handle sessionId token s = (Return None, s)).
Proof.
  intros He Hs provider. subst provider. repeat split; intros H.
  - unfold resolveInteractiveRequest. unfold_M. by rewrite He, Hs, H.
  - unfold provideInitialSuggestions. unfold_M. by rewrite He, H.
  - unfold provideSlashCommands. unfold_M. by rewrite He, Hs, H.
Qed.

Lemma missing_capability_returns_undefined_witness :
  let s := registered (ticking 1) (sync_provider plain_session) in
  resolveInteractiveRequest 0 0 (JsString "selection") false s = (Return None, s) /\
  provideInitialSuggestions 0 false s = (Return None, s) /\
  provideSlashCommands next_kind 0 0 false s = (Return None, s).
Proof.
  intros s.
  destruct (missing_capability_returns_undefined next_kind s 0 0
              (JsString "selection") false
              (InteractiveSessionProviderWrapper.mk 0 "extension"
                 (sync_provider plain_session))
              plain_session eq_refl eq_refl) as (H1 & H2 & H3).
  split; [exact (H1 eq_refl) |]. split; [exact (H2 eq_refl) | exact (H3 eq_refl)].
Defined.

(** X17.  [$resolveInteractiveRequest] calls [resolveRequest] with the
    session stored under the id and the context it was given.  An error of
    the provider is thrown on; no request gives [undefined]; of a request
    only the message is returned.  The call changes neither the registry
    nor the store, sends nothing to the main thread and logs nothing. *)
Theorem resolve_request_outcome
    s handle sessionId context token entry realSession f :
  _interactiveSessionProvider s !! handle = Some entry ->
  _interactiveSessions s !! sessionId = Some realSession ->
  InteractiveSessionProvider.resolveRequest
    (InteractiveSessionProviderWrapper.provider entry) = Some f ->
  let out := resolveInteractiveRequest handle sessionId context token s in
  fst out =
    match f realSession context token with
    | Throw e => Throw e
    | Return None => Return None
    | Return (Some request) =>
        Return (Some (IInteractiveRequestDto.mk (InteractiveRequest.message request)))
    end /\
  calls_during s (snd out) = [cap_resolveRequest] /\
  same_registry s (snd out) /\ quiet s (snd out).
Proof.
  intros He Hs Hf out.
  split; [| split; [| split]].
  - subst out. unfold resolveInteractiveRequest. unfold_M. rewrite He, Hs, Hf.
    by destruct (f realSession context token) as [[request|]|e].
  - subst out. unfold resolveInteractiveRequest, calls_during. unfold_M.
    rewrite He, Hs, Hf.
    destruct (f realSession context token) as [[request|]|e]; simpl;
      by rewrite drop_own_length.
  - apply resolve_registry.
  - apply resolve_quiet.
Qed.

Lemma resolve_request_outcome_witness :
  let s := registered (ticking 1) helper_provider in
  fst (resolveInteractiveRequest 0 0 (JsString "explain this") false s) =
    Return (Some (IInteractiveRequestDto.mk "explain this")) /\
  fst (resolveInteractiveRequest 0 0 (JsNumber 4) false s) =
    Throw (JsError.Error "bad context").
Proof.
  intros s.
  pose proof (fun context =>
    proj1 (resolve_request_outcome s 0 0 context false
             (InteractiveSessionProviderWrapper.mk 0 "extension" helper_provider)
             saving_session _ eq_refl eq_refl eq_refl)) as H.
  split; [exact (H (JsString "explain this")) | exact (H (JsNumber 4))].
Defined.

(** X18.  [$provideInitialSuggestions] needs no session: when the
    provider resolves and has [provideInitialSuggestions], the method
    settles as the provider did, with the same suggestions in the same
    order, with [undefined] for no suggestions, or with the same error.
    The call changes neither the registry nor the store, sends nothing to
    the main thread and logs nothing. *)
Theorem suggestions_outcome s handle token entry f :
  _interactiveSessionProvider s !! handle = Some entry ->
  InteractiveSessionProvider.provideInitialSuggestions
    (InteractiveSessionProviderWrapper.provider entry) = Some f ->
  let out := provideInitialSuggestions handle token s in
  fst out = f token /\
  calls_during s (snd out) = [cap_provideInitialSuggestions] /\
  same_registry s (snd out) /\ quiet s (snd out).
Proof.
  intros He Hf out.
  split; [| split; [| split]].
  - subst out. unfold provideInitialSuggestions. unfold_M. rewrite He, Hf.
    by destruct (f token) as [suggestions|e].
  - subst out. unfold provideInitialSuggestions, calls_during. unfold_M.
    rewrite He, Hf.
    destruct (f token) as [suggestions|e]; simpl; by rewrite drop_own_length.
  - apply suggestions_registry.
  - apply suggestions_quiet.
Qed.

Lemma suggestions_outcome_witness :
  let s := snd (releaseSession 0 (registered (ticking 1) helper_provider)) in
  fst (provideInitialSuggestions 0 false s) = Return (Some ["one"; "two"]).
Proof.
  intros s.
  exact (proj1 (suggestions_outcome s 0 false
                  (InteractiveSessionProviderWrapper.mk 0 "extension" helper_provider)
                  _ eq_refl eq_refl)).
Defined.

(** X19.  [$provideSlashCommands], when the provider and the session
    resolve and the provider has [provideSlashCommands]: an error of the
    provider is thrown on and no sequence gives [undefined]; in a returned
    sequence every descriptor has a [kind] property, the source's
    properties and no other, also when the source descriptor has no
    [kind], in which case the kind is the conversion of [undefined].  The
    call changes neither the registry nor the store, sends nothing to the
    main thread and logs nothing. *)
Theorem slashCommands_outcome
    (from : JsValue -> JsValue) s handle sessionId token entry realSession f :
  _interactiveSessionProvider s !! handle = Some entry ->
  _interactiveSessions s !! sessionId = Some realSession ->
  InteractiveSessionProvider.provideSlashCommands
    (InteractiveSessionProviderWrapper.provider entry) = Some f ->
  let out := provideSlashCommands from handle sessionId token s in
  match f realSession token with
  | Throw e => fst out = Throw e
  | Return None => fst out = Return None
  | Return (Some source) =>
      exists commands,
        fst out = Return (Some commands) /\
        Forall2 (fun (c c' : JsObject) =>
                   dom c' = {["kind"]} ∪ dom c /\
                   (c !! "kind" = None -> c' !! "kind" = Some (from JsUndefined)))
                source commands
  end /\
  same_registry s (snd out) /\ quiet s (snd out).
Proof.
  intros He Hs Hf out.
  split; [| split; [apply slashCommands_registry | apply slashCommands_quiet]].
  subst out. unfold provideSlashCommands. unfold_M. rewrite He, Hs, Hf.
  destruct (f realSession token) as [[source|]|e]; simpl; try done.
  eexists. split; [done |].
  apply Forall2_fmap_r, Forall_Forall2_diag, Forall_forall.
  intros c _. unfold convertSlashCommand. split.
  - by rewrite dom_insert_L.
  - intros Hk. unfold get_prop. by rewrite Hk, lookup_insert_eq.
Qed.

Lemma slashCommands_outcome_witness :
  let s := registered (ticking 1) helper_provider in
  fst (provideSlashCommands next_kind 0 0 false s) = Throw (JsError.Error "no commands").
Proof.
  intros s.
  exact (proj1 (slashCommands_outcome next_kind s 0 0 false
                  (InteractiveSessionProviderWrapper.mk 0 "extension" helper_provider)
                  saving_session _ eq_refl eq_refl eq_refl)).
Defined.

(** ** Life cycles and order *)

(** X20.  A provider serves from its registration to the disposal of it.
    Right after the registration, a preparation with the returned handle
    reaches [prepareSession] of this provider: when that gives a session,
    the session is stored under the id that was next.  Once the
    registration is disposed of, the same preparation returns [undefined]
    and stores nothing, and so does a reply. *)
Theorem provider_serves_until_disposed
    extension id provider initialState token session request s :
  InteractiveSessionProvider.prepareSession provider initialState token
    = Return (Some session) ->
  let handle := _pool s in
  let s1 := snd (registerInteractiveSessionProvider extension id provider s) in
  let s2 := snd (dispose_registration handle s1) in
  (exists dto s',
      prepareInteractiveSession handle initialState token s1 = (Return (Some dto), s') /\
      IInteractiveSessionDto.id dto = _nextId s /\
      _interactiveSessions s' !! _nextId s = Some session) /\
  prepareInteractiveSession handle initialState token s2 = (Return None, s2) /\
  forall sessionId,
    provideInteractiveReply handle sessionId request token s2 = (Return None, s2).
Proof.
  intros Hprep handle s1 s2.
  assert (H1 : _interactiveSessionProvider s1 !! handle =
               Some (InteractiveSessionProviderWrapper.mk handle extension provider)).
  { subst s1 handle. rewrite register_eq. simpl. apply lookup_insert_eq. }
  assert (H2 : _interactiveSessionProvider s2 !! handle = None).
  { subst s2. apply dispose_unresolved. }
  split; [| split].
  - rewrite (prepare_eq _ _ _ _ _ H1). cbv zeta. simpl. rewrite Hprep.
    do 2 eexists. split; [reflexivity |]. simpl.
    split; [done | apply lookup_insert_eq].
  - by apply prepare_unknown_handle.
  - intros sessionId. by apply reply_unknown_handle.
Qed.

Lemma provider_serves_until_disposed_witness :
  let s := registered (ticking 1) (sync_provider plain_session) in
  let s1 := snd (registerInteractiveSessionProvider "other" "second" helper_provider s) in
  let s2 := snd (dispose_registration 1 s1) in
  prepareInteractiveSession 1 JsNull false s2 = (Return None, s2).
Proof.
  intros s s1 s2.
  exact (proj1 (proj2 (provider_serves_until_disposed "other" "second" helper_provider
                         JsNull false saving_session hi s eq_refl))).
Defined.

(** X21.  In the synchronous mode the state is saved before the answer is
    forwarded: when [provideResponse] returns a result and [saveState]
    returns, the main thread receives exactly two calls, first the new
    state of the session, then the content of the result as a progress
    increment. *)
Theorem sync_saves_before_forwarding
    s handle sessionId request token entry realSession f res saveState newState :
  _interactiveSessionProvider s !! handle = Some entry ->
  _interactiveSessions s !! sessionId = Some realSession ->
  InteractiveSessionProvider.provideResponse
    (InteractiveSessionProviderWrapper.provider entry) = Some f ->
  f (InteractiveRequest.mk realSession (IInteractiveRequestDto.message request)) token
    = Return (Some res) ->
  InteractiveSession.saveState realSession = Some saveState ->
  saveState tt = Return newState ->
  let out := provideInteractiveReply handle sessionId request token s in
  proxy_during s (snd out) =
    [acceptInteractiveSessionState_ sessionId newState;
     acceptInteractiveResponseProgress_ handle sessionId
       (InteractiveResponse.content res)].
Proof.
  intros He Hs H1 Hf Hsave Hnew out. subst out.
  rewrite (reply_resolved _ _ _ _ _ _ _ He Hs). cbv zeta. rewrite H1.
  destruct (reply_provideResponse_outcome handle sessionId realSession
              (InteractiveRequest.mk realSession (IInteractiveRequestDto.message request))
              token f s) as (_ & _ & H).
  rewrite Hf in H. unfold save_failure, saved_state in H.
  rewrite Hsave, Hnew in H. destruct H as [_ Hp].
  unfold proxy_during. by rewrite Hp, drop_own_length.
Qed.

Lemma sync_saves_before_forwarding_witness :
  let s := registered (ticking 1) (sync_provider saving_session) in
  proxy_during s (snd (provideInteractiveReply 0 0 hi false s)) =
    [acceptInteractiveSessionState_ 0 (JsString "saved");
     acceptInteractiveResponseProgress_ 0 0 "hello"].
Proof.
  intros s.
  exact (sync_saves_before_forwarding s 0 0 hi false
           (InteractiveSessionProviderWrapper.mk 0 "extension"
              (sync_provider saving_session))
           saving_session _ answer _ (JsString "saved")
           eq_refl eq_refl eq_refl eq_refl eq_refl eq_refl).
Defined.
